(** * Appointment microservice: conflict detection, id generation, slot
      availability and status lifecycle

    A shallow embedding of [app/models/appointments.py],
    [app/schemas/appointments.py], [app/crud.py] and the handlers of
    [app/routers/appointments.py], followed by the properties of the
    natural-language specification that they decide.

    Conventions of the embedding.
    - The table [appointments] is a list of rows in insertion order; the
      position of a row plays the part of the integer primary key [id].
      The server-side column [created_at] carries no decision and is left
      out.
    - A function of [crud.py] that takes the session [db] takes the table and
      returns the table after the call together with its outcome: the value
      returned or the [HTTPException] raised.  A raise before [db.commit()]
      (followed by [db.rollback()]) leaves the table as it was.
    - [UNIQUE(appointment_id)] of the model is enforced on insertion: the
      driver's [IntegrityError] is an [Exception] for the handlers.
      Column widths ([String(50)], ...) depend on the backend and are not
      modelled.
    - [ORDER BY appointment_id DESC] compares character codes, which is what
      every collation does on the ids the service itself writes.
    - [date.today()] is a parameter [today] of the validation of a request
      and of its response: one current date for one request.
    - A text is held as the bytes of its UTF-8 encoding; lengths are counted
      in characters ([Py.len]). *)

From Stdlib Require Import ZArith String Ascii List Bool Lia.
From stdpp Require Import base decidable option list list_numbers sets strings.

Local Open Scope string_scope.
Local Open Scope list_scope.
Local Open Scope Z_scope.

(** ** The fragments of Python's [datetime] and [str]/[int] that the code uses *)

Module Py.

(** [datetime.date]: ordered as the tuple [(year, month, day)]. *)
Record date := mk_date { year : Z; month : Z; day : Z }.

(** [datetime.time] (naive): ordered as the tuple
    [(hour, minute, second, microsecond)]. *)
Record time := mk_time { hour : Z; minute : Z; second : Z; microsecond : Z }.

(** Tuple comparison: the first unequal component decides. *)
Definition lex (c : comparison) (k : comparison) : comparison :=
  match c with Eq => k | _ => c end.

Definition date_cmp (a b : date) : comparison :=
  lex (year a ?= year b) (lex (month a ?= month b) (day a ?= day b)).

Definition time_cmp (a b : time) : comparison :=
  lex (hour a ?= hour b)
    (lex (minute a ?= minute b)
       (lex (second a ?= second b) (microsecond a ?= microsecond b))).

Definition is_lt (c : comparison) : bool := match c with Lt => true | _ => false end.
Definition is_gt (c : comparison) : bool := match c with Gt => true | _ => false end.

(** [a < b], [a <= b], [a > b], [a >= b] on dates and times. *)
Definition date_lt (a b : date) : bool := is_lt (date_cmp a b).
Definition time_lt (a b : time) : bool := is_lt (time_cmp a b).
Definition time_gt (a b : time) : bool := is_gt (time_cmp a b).
Definition time_le (a b : time) : bool := negb (is_gt (time_cmp a b)).
Definition time_ge (a b : time) : bool := negb (is_lt (time_cmp a b)).

(** [time(hour=i)]. *)
Definition time_of_hour (i : Z) : time := mk_time i 0 0 0.

(** Text.  A Python [str] is held as the bytes of its UTF-8 encoding, one
    [ascii] per byte: equality of texts is equality of the bytes.  A
    character of the text is one byte of the form 0xxxxxxx or 11xxxxxx
    followed by its continuation bytes, of the form 10xxxxxx. *)
Definition is_continuation (c : ascii) : bool :=
  let n := N_of_ascii c in ((128 <=? n) && (n <? 192))%N.

(** [len(s)]: the number of characters, not of bytes. *)
Fixpoint len (s : string) : nat :=
  match s with
  | EmptyString => O
  | String c rest => if is_continuation c then len rest else S (len rest)
  end.

(** [chr(ord('0') + d)] for a digit [d]. *)
Definition digit_char (d : Z) : ascii := ascii_of_N (Z.to_N (48 + d)).

(** The decimal digits of [n >= 0] in front of [acc], least significant
    digit first to be produced.  The loop ends when the last digit is
    written; [fuel] only bounds the recursion and is never what ends it when
    it is at least the number of binary digits of [n]. *)
Fixpoint str_digits (fuel : nat) (n : Z) (acc : string) : string :=
  let acc' := String (digit_char (n mod 10)) acc in
  match fuel with
  | O => acc'
  | S fuel' => if n <? 10 then acc' else str_digits fuel' (n / 10) acc'
  end.

(** [str(n)] for an [int]. *)
Definition str (n : Z) : string :=
  match n with
  | Z0 => "0"
  | Zpos p => str_digits (Pos.size_nat p) (Zpos p) ""
  | Zneg p => String "-" (str_digits (Pos.size_nat p) (Zpos p) "")
  end.

Fixpoint zeros (k : nat) : string :=
  match k with O => "" | S k' => String "0" (zeros k') end.

(** [s.zfill(width)]: pad with zeros on the left, after a leading sign.
    The code applies it to [str(next_id)], ASCII text, whose length in
    characters is its length in bytes. *)
Definition zfill (width : nat) (s : string) : string :=
  if (width <=? String.length s)%nat then s
  else
    let fill := zeros (width - String.length s) in
    match s with
    | String c rest =>
        if (Ascii.eqb c "+" || Ascii.eqb c "-")%bool
        then String c (fill +:+ rest)
        else fill +:+ s
    | EmptyString => fill
    end.

(** [s[k:]]. *)
Fixpoint slice_from (k : nat) (s : string) : string :=
  match k, s with
  | O, _ => s
  | S k', String _ rest => slice_from k' rest
  | S _, EmptyString => EmptyString
  end.

(** The white space that [int()] skips at both ends (the ASCII part of
    [str.isspace]). *)
Definition is_space (c : ascii) : bool :=
  let n := N_of_ascii c in
  ((9 <=? n) && (n <=? 13) || (28 <=? n) && (n <=? 32))%N.

Definition digit_of (c : ascii) : option Z :=
  let n := N_of_ascii c in
  if ((48 <=? n) && (n <=? 57))%N then Some (Z.of_N n - 48) else None.

Fixpoint all_space (s : string) : bool :=
  match s with
  | EmptyString => true
  | String c rest => is_space c && all_space rest
  end.

(** Digits of a base-10 literal, most significant first.  [prev] tells
    whether the character before was a digit: an underscore may only stand
    between two digits.  Trailing white space ends the literal. *)
Fixpoint int_digits (acc : Z) (prev : bool) (s : string) : option Z :=
  match s with
  | EmptyString => if prev then Some acc else None
  | String c rest =>
      match digit_of c with
      | Some d => int_digits (10 * acc + d) true rest
      | None =>
          if Ascii.eqb c "_" then
            if prev then
              match rest with
              | String c' _ =>
                  if digit_of c' is Some _ then int_digits acc false rest else None
              | EmptyString => None
              end
            else None
          else if prev && all_space s then Some acc else None
      end
  end.

Fixpoint lstrip (s : string) : string :=
  match s with
  | String c rest => if is_space c then lstrip rest else s
  | EmptyString => s
  end.

(** [int(s)] in base 10 on ASCII text: [None] stands for [ValueError].
    On text with a character outside ASCII the function answers [None],
    where Python still reads the decimal digits and the white space of
    other scripts.  The code applies [int] to the id of a row: every id
    that the service writes is ASCII text, and no property below evaluates
    [int] on another text. *)
Definition int (s : string) : option Z :=
  match lstrip s with
  | String c rest =>
      if Ascii.eqb c "-" then Z.opp <$> int_digits 0 false rest
      else if Ascii.eqb c "+" then int_digits 0 false rest
      else int_digits 0 false (String c rest)
  | EmptyString => None
  end.

End Py.

Import Py.

(** ** [app/models/appointments.py] *)

Module Models.

(** [class AppointmentStatus(str, PyEnum)] and the string each member is. *)
Inductive AppointmentStatus := SCHEDULED | COMPLETED | CANCELLED | PENDING.

Definition value (st : AppointmentStatus) : string :=
  match st with
  | SCHEDULED => "SCHEDULED"
  | COMPLETED => "COMPLETED"
  | CANCELLED => "CANCELLED"
  | PENDING => "PENDING"
  end.

(** A row of the table [appointments].  The column [status] is a
    [String(20)], not an enumeration. *)
Record Appointment := mk_Appointment {
  appointment_id : string;
  doctor_id : string;
  patient_id : string;
  facility_id : string;
  doctor_name : string;
  patient_name : string;
  appointment_date : date;
  appointment_start_time : time;
  appointment_end_time : time;
  purpose_of_visit : string;
  description : option string;
  status : string
}.

(** [appointment.status = new_status]. *)
Definition set_status (a : Appointment) (st : string) : Appointment :=
  {| appointment_id := appointment_id a;
     doctor_id := doctor_id a;
     patient_id := patient_id a;
     facility_id := facility_id a;
     doctor_name := doctor_name a;
     patient_name := patient_name a;
     appointment_date := appointment_date a;
     appointment_start_time := appointment_start_time a;
     appointment_end_time := appointment_end_time a;
     purpose_of_visit := purpose_of_visit a;
     description := description a;
     status := st |}.

(** The table, in insertion order. *)
Abbreviation Store := (list Appointment).

(** [AppointmentStatus(s)], the lookup of a member by its value that the
    framework makes for a [status] in a body or in a path: [None] stands for
    the [ValueError] on a string that is no member's value. *)
Definition AppointmentStatus_of_value (s : string) : option AppointmentStatus :=
  if String.eqb s "SCHEDULED" then Some SCHEDULED
  else if String.eqb s "COMPLETED" then Some COMPLETED
  else if String.eqb s "CANCELLED" then Some CANCELLED
  else if String.eqb s "PENDING" then Some PENDING
  else None.

End Models.

Import Models.

Global Instance date_eq_dec : EqDecision date.
Proof. solve_decision. Defined.
Global Instance time_eq_dec : EqDecision time.
Proof. solve_decision. Defined.
Global Instance AppointmentStatus_eq_dec : EqDecision AppointmentStatus.
Proof. solve_decision. Defined.
Global Instance Appointment_eq_dec : EqDecision Appointment.
Proof. solve_decision. Defined.

(** ** [app/schemas/appointments.py] *)

Module Schemas.

Record TimeSlot := mk_TimeSlot { start_time : time; end_time : time }.

(** A validated [AppointmentRequest]. *)
Record AppointmentRequest := mk_AppointmentRequest {
  doctor_id : string;
  patient_id : string;
  facility_id : string;
  doctor_name : string;
  patient_name : string;
  appointment_date : date;
  appointment_start_time : time;
  appointment_end_time : time;
  purpose_of_visit : string;
  description : option string
}.

(** The body of a request after parsing, field by field: [None] is a field
    that is absent or not of its type (for [description]: absent or null).
    The times are naive ones, as [Py.time]: a time written with a UTC
    offset is not among the bodies considered. *)
Record RawRequest := mk_RawRequest {
  raw_doctor_id : option string;
  raw_patient_id : option string;
  raw_facility_id : option string;
  raw_doctor_name : option string;
  raw_patient_name : option string;
  raw_appointment_date : option date;
  raw_appointment_start_time : option time;
  raw_appointment_end_time : option time;
  raw_purpose_of_visit : option string;
  raw_description : option string
}.

(** [Field(..., min_length=lo, max_length=hi)] on a required string: the
    bounds are on the number of characters. *)
Definition required_str (lo : nat) (hi : option nat) (x : option string)
  : option string :=
  s ← x;
  if ((lo <=? len s)%nat &&
      match hi with Some h => (len s <=? h)%nat | None => true end)%bool
  then Some s else None.

(** [Field(None, max_length=hi)] on an optional string: the result is the
    validated value, itself possibly [None]. *)
Definition optional_str (hi : nat) (x : option string) : option (option string) :=
  match x with
  | None => Some None
  | Some s => if (len s <=? hi)%nat then Some (Some s) else None
  end.

(** [validate_appointment_date]: [None] is the [ValueError]. *)
Definition validate_appointment_date (today : date) (v : date) : option date :=
  if date_lt v today then None else Some v.

(** [validate_appointment_time]: [values_start] is
    [values.get('appointment_start_time')], present exactly when the start
    time itself validated. *)
Definition validate_appointment_time (v : time) (values_start : option time)
  : option time :=
  match values_start with
  | Some st => if time_le v st then None else Some v
  | None => Some v
  end.

Definition field_error {A} (loc : string) (x : option A) : list string :=
  match x with Some _ => [] | None => [loc] end.

(** Validation of the whole model, fields in declaration order.  The
    outcome is the list of the fields in error or, when there is none, the
    request. *)
Definition validate (today : date) (raw : RawRequest)
  : list string + AppointmentRequest :=
  let f_doctor_id := required_str 0 None (raw_doctor_id raw) in
  let f_patient_id := required_str 0 None (raw_patient_id raw) in
  let f_facility_id := required_str 0 None (raw_facility_id raw) in
  let f_doctor_name := required_str 2 (Some 100%nat) (raw_doctor_name raw) in
  let f_patient_name := required_str 2 (Some 100%nat) (raw_patient_name raw) in
  let f_date : option date :=
    raw_appointment_date raw ≫= validate_appointment_date today in
  let f_start : option time := raw_appointment_start_time raw in
  let f_end : option time :=
    v ← raw_appointment_end_time raw; validate_appointment_time v f_start in
  let f_purpose := required_str 2 (Some 255%nat) (raw_purpose_of_visit raw) in
  let f_description := optional_str 500 (raw_description raw) in
  let model : option AppointmentRequest :=
    di ← f_doctor_id; pi ← f_patient_id; fi ← f_facility_id;
    dn ← f_doctor_name; pn ← f_patient_name;
    d ← f_date; st ← f_start; en ← f_end;
    pv ← f_purpose; de ← f_description;
    Some (mk_AppointmentRequest di pi fi dn pn d st en pv de) in
  match model with
  | Some m => inr m
  | None =>
      inl (field_error "doctor_id" f_doctor_id
           ++ field_error "patient_id" f_patient_id
           ++ field_error "facility_id" f_facility_id
           ++ field_error "doctor_name" f_doctor_name
           ++ field_error "patient_name" f_patient_name
           ++ field_error "appointment_date" f_date
           ++ field_error "appointment_start_time" f_start
           ++ field_error "appointment_end_time" f_end
           ++ field_error "purpose_of_visit" f_purpose
           ++ field_error "description" f_description)
  end.

(** [AppointmentStatusUpdateRequest]: the one required field [status], an
    [AppointmentStatus]. *)
Definition validate_status_update (raw_status : option string)
  : option AppointmentStatus :=
  raw_status ≫= AppointmentStatus_of_value.

(** [AppointmentResponse(AppointmentRequest)], built from a row
    ([from_attributes]).  The class declares every field again with its
    bare type, which drops the [Field] constraints, and inherits the two
    validators, which run on the row: the result is the list of the fields
    in error.  The start time of a row is a time, so it is among the
    validated values when the end time is checked. *)
Definition validate_response (today : date) (row : Appointment) : list string :=
  field_error "appointment_date"
    (validate_appointment_date today (Models.appointment_date row))
  ++ field_error "appointment_end_time"
       (validate_appointment_time (Models.appointment_end_time row)
          (Some (Models.appointment_start_time row))).

End Schemas.

Import Schemas.

(** ** [app/crud.py] *)

Module Crud.

(** [fastapi.HTTPException]. *)
Record HTTPException := mk_HTTPException { status_code : Z; detail : string }.

(** What a [try] body can raise: an [HTTPException], or any other
    [Exception] ([ValueError] from [int], [IntegrityError] from the
    driver). *)
Inductive exn := HTTPExc (e : HTTPException) | OtherExc.

(** Outcome of a [try] body. *)
Inductive outcome (A : Type) := Done (a : A) | Throw (x : exn).
Arguments Done {A} a.
Arguments Throw {A} x.

#[global] Instance outcome_ret : MRet outcome := λ A a, Done a.
#[global] Instance outcome_bind : MBind outcome := λ A B k m,
  match m with Done a => k a | Throw x => Throw x end.

(** Outcome of a function of this module, as its caller sees it. *)
Inductive result (A : Type) := Return (a : A) | Raise (e : HTTPException).
Arguments Return {A} a.
Arguments Raise {A} e.

Definition not_found : HTTPException :=
  mk_HTTPException 404 "Appointment not found".
Definition scheduling_conflict : HTTPException :=
  mk_HTTPException 400
    "Doctor already has an appointment scheduled during this time".
Definition internal_server_error : HTTPException :=
  mk_HTTPException 500 "Internal server error".
Definition status_update_error : HTTPException :=
  mk_HTTPException 500 "Error updating appointment status".

Definition get_all_appointments (db : Store) : result (list Appointment) :=
  Return db.

(** [get_appointment_by_id]: the first row with that id, with its
    position (the ORM object is a handle on the row), or the 404. *)
Definition get_appointment_by_id (db : Store) (appointment_id : string)
  : outcome (nat * Appointment) :=
  match list_find (λ a, Models.appointment_id a = appointment_id) db with
  | Some row => Done row
  | None => Throw (HTTPExc not_found)
  end.

(** [db.query(Appointment).order_by(Appointment.appointment_id.desc()).first()]:
    a row whose id no other id exceeds. *)
Definition later_id (best : option Appointment) (a : Appointment)
  : option Appointment :=
  match best with
  | None => Some a
  | Some b =>
      if String.ltb (appointment_id b) (appointment_id a) then Some a else Some b
  end.

Definition last_appointment (db : Store) : option Appointment :=
  foldl later_id None db.

(** The filter of the conflict query, for a request [appointment]. *)
Definition conflicting (appointment : AppointmentRequest) (a : Appointment)
  : bool :=
  bool_decide (Models.doctor_id a = Schemas.doctor_id appointment)
  && bool_decide (Models.appointment_date a = Schemas.appointment_date appointment)
  && bool_decide (status a ≠ value CANCELLED)
  && (time_lt (Models.appointment_start_time a)
              (Schemas.appointment_end_time appointment)
      && time_gt (Models.appointment_end_time a)
                 (Schemas.appointment_start_time appointment)).

(** [db.add(row); db.commit()] under [UNIQUE(appointment_id)]. *)
Definition add_commit (db : Store) (row : Appointment) : outcome Store :=
  if bool_decide (Exists (λ a, appointment_id a = appointment_id row) db)
  then Throw OtherExc
  else Done (db ++ [row]).

(** [next_id]: one more than the number written after the three letters
    of the last id, or 1 in an empty table.  [int] may raise. *)
Definition next_id (db : Store) : outcome Z :=
  match last_appointment db with
  | Some last =>
      match Py.int (slice_from 3 (Models.appointment_id last)) with
      | Some last_id => Done (last_id + 1)
      | None => Throw OtherExc
      end
  | None => Done 1
  end.

(** [f"APT{str(next_id).zfill(4)}"]. *)
Definition format_appointment_id (next_id : Z) : string :=
  "APT" +:+ zfill 4 (Py.str next_id).

(** The row that [create_appointment] builds. *)
Definition new_appointment (appointment_id : string)
    (appointment : AppointmentRequest) : Appointment :=
  {| Models.appointment_id := appointment_id;
     Models.doctor_id := Schemas.doctor_id appointment;
     Models.patient_id := Schemas.patient_id appointment;
     Models.facility_id := Schemas.facility_id appointment;
     Models.doctor_name := Schemas.doctor_name appointment;
     Models.patient_name := Schemas.patient_name appointment;
     Models.appointment_date := Schemas.appointment_date appointment;
     Models.appointment_start_time := Schemas.appointment_start_time appointment;
     Models.appointment_end_time := Schemas.appointment_end_time appointment;
     Models.purpose_of_visit := Schemas.purpose_of_visit appointment;
     Models.description := Schemas.description appointment;
     status := value SCHEDULED |}.

(** The [try] block of [create_appointment]: the id first, then the
    conflict query, then the insertion. *)
Definition create_appointment_body (db : Store) (appointment : AppointmentRequest)
  : outcome (Store * Appointment) :=
  next_id ← next_id db;
  let appointment_id := format_appointment_id next_id in
  let existing_appointment := list_find (λ a, conflicting appointment a) db in
  if existing_appointment is Some _ then Throw (HTTPExc scheduling_conflict)
  else
    let db_appointment := new_appointment appointment_id appointment in
    db' ← add_commit db db_appointment;
    Done (db', db_appointment).

(** [create_appointment]: an [HTTPException] of the body is re-raised as it
    is, any other exception rolls back and becomes the generic 500. *)
Definition create_appointment (db : Store) (appointment : AppointmentRequest)
  : Store * result Appointment :=
  match create_appointment_body db appointment with
  | Done (db', row) => (db', Return row)
  | Throw (HTTPExc he) => (db, Raise he)
  | Throw OtherExc => (db, Raise internal_server_error)
  end.

(** The [try] block of [update_appointment_status]. *)
Definition update_appointment_status_body (db : Store) (appointment_id : string)
    (new_status : AppointmentStatus) : outcome (Store * Appointment) :=
  '(i, appointment) ← get_appointment_by_id db appointment_id;
  let appointment := set_status appointment (value new_status) in
  Done (<[i := appointment]> db, appointment).

(** [update_appointment_status]: the single handler is
    [except Exception], which every exception of the body reaches. *)
Definition update_appointment_status (db : Store) (appointment_id : string)
    (new_status : AppointmentStatus) : Store * result Appointment :=
  match update_appointment_status_body db appointment_id new_status with
  | Done (db', row) => (db', Return row)
  | Throw _ => (db, Raise status_update_error)
  end.

Definition get_appointments_by_patient_id (db : Store) (patient_id : string)
  : result (list Appointment) :=
  Return (filter (λ a, Models.patient_id a = patient_id) db).

Definition get_appointments_by_doctor_id (db : Store) (doctor_id : string)
  : result (list Appointment) :=
  Return (filter (λ a, Models.doctor_id a = doctor_id) db).

(** The inner loop of [get_available_time_slots]: [is_available] after
    scanning [booked_slots], leaving at the first hit. *)
Fixpoint is_available (slot : TimeSlot) (booked_slots : list (time * time))
  : bool :=
  match booked_slots with
  | [] => true
  | booked :: rest =>
      if time_ge (start_time slot) booked.1 && time_lt (start_time slot) booked.2
      then false
      else is_available slot rest
  end.

(** [working_hours]: [TimeSlot(time(hour=i), time(hour=i+1))] for [i] in
    [range(9, 17)]. *)
Definition working_hours : list TimeSlot :=
  (λ i, mk_TimeSlot (time_of_hour i) (time_of_hour (i + 1))) <$> seqZ 9 8.

Definition get_available_time_slots (db : Store) (doctor_id : string)
    (date : Py.date) : list TimeSlot :=
  let booked_slots :=
    (λ a, (Models.appointment_start_time a, Models.appointment_end_time a)) <$>
    filter (λ a, Models.doctor_id a = doctor_id
                 ∧ Models.appointment_date a = date
                 ∧ status a ≠ value CANCELLED) db in
  foldl (λ available_slots slot,
           if is_available slot booked_slots
           then available_slots ++ [slot] else available_slots)
        [] working_hours.

Definition get_appointments_count_by_status (db : Store)
    (st : AppointmentStatus) : nat :=
  length (filter (λ a, status a = value st) db).

(** [get_appointments_by_facility_id] has no handler. *)
Definition get_appointments_by_facility_id (db : Store) (facility_id : string)
  : list Appointment :=
  filter (λ a, Models.facility_id a = facility_id) db.

Definition get_appointment_count_by_doctor_and_status (db : Store)
    (doctor_id : string) (st : AppointmentStatus) : nat :=
  length (filter (λ a, Models.doctor_id a = doctor_id ∧ status a = value st) db).

Definition get_appointment_count_by_patient_and_status (db : Store)
    (patient_id : string) (st : AppointmentStatus) : nat :=
  length (filter (λ a, Models.patient_id a = patient_id ∧ status a = value st) db).

End Crud.

Import Crud.

(** ** [app/routers/appointments.py] *)

Module Router.

(** Modelled from the spec: [app/auth_utils.py] is not among the sources.
    Its [User] is the pair of [username] and [role] that the external
    authentication service returns for the bearer credential; the handlers
    read [current_user.username] and [current_user.role]. *)
Record User := mk_User { username : string; role : string }.

(** Response of an endpoint that takes a request body and declares a
    [response_model]: the value, the [HTTPException] of the handler, the 422
    of a body that fails validation (the handler did not run), or the 500 of
    a returned value that fails the validation of the response model (the
    handler ran and committed). *)
Inductive response (A : Type) :=
  | Respond (a : A)
  | HTTPError (e : HTTPException)
  | RequestValidationError (errors : list string)
  | ResponseValidationError (errors : list string).
Arguments Respond {A} a.
Arguments HTTPError {A} e.
Arguments RequestValidationError {A} errors.
Arguments ResponseValidationError {A} errors.

(** [response_model=AppointmentResponse]: what the framework does with the
    outcome of the handler.  The current date is the one of the request. *)
Definition serialize_response (today : date) (out : Store * result Appointment)
  : Store * response Appointment :=
  match out with
  | (db', Return row) =>
      match validate_response today row with
      | [] => (db', Respond row)
      | errors => (db', ResponseValidationError errors)
      end
  | (db', Raise e) => (db', HTTPError e)
  end.

Definition forbidden_patient : HTTPException :=
  mk_HTTPException 403 "Patients can only view their own appointments".

(** [POST /]: the body is validated into an [AppointmentRequest] before
    the handler runs, and the row that the handler returns is validated
    as an [AppointmentResponse]. *)
Definition create_new_appointment (today : date) (db : Store) (body : RawRequest)
  : Store * response Appointment :=
  match validate today body with
  | inl errors => (db, RequestValidationError errors)
  | inr appointment => serialize_response today (create_appointment db appointment)
  end.

(** [PUT /id/{appointment_id}/status], the handler and its
    [response_model]. *)
Definition update_status (today : date) (db : Store) (appointment_id : string)
    (status_update : AppointmentStatus) : Store * response Appointment :=
  serialize_response today
    (update_appointment_status db appointment_id status_update).

(** [GET /patient/{patient_id}]. *)
Definition get_patient_appointments (db : Store) (current_user : User)
    (patient_id : string) : result (list Appointment) :=
  if bool_decide (role current_user = "PATIENT")
     && bool_decide (username current_user ≠ patient_id)
  then Raise forbidden_patient
  else get_appointments_by_patient_id db patient_id.

Definition forbidden_doctor : HTTPException :=
  mk_HTTPException 403 "Doctors can only view their own appointments".

(** [GET /id/{appointment_id}]: the row, or the 404 of the lookup, which no
    handler stands in the way of. *)
Definition get_appointment (db : Store) (appointment_id : string)
  : outcome Appointment :=
  row ← get_appointment_by_id db appointment_id; Done row.2.

(** [PUT /id/{appointment_id}/status] from the raw body: a [status] that is
    no member of the enumeration is refused before the handler runs. *)
Definition update_status_request (today : date) (db : Store)
    (appointment_id : string) (raw_status : option string)
  : Store * response Appointment :=
  match validate_status_update raw_status with
  | None => (db, RequestValidationError ["status"])
  | Some status_update => update_status today db appointment_id status_update
  end.

(** [GET /doctor/{doctor_id}]. *)
Definition get_doctor_appointments (db : Store) (current_user : User)
    (doctor_id : string) : result (list Appointment) :=
  if bool_decide (role current_user = "DOCTOR")
     && bool_decide (username current_user ≠ doctor_id)
  then Raise forbidden_doctor
  else get_appointments_by_doctor_id db doctor_id.

(** [GET /facility/{facility_id}]. *)
Definition get_facility_appointments (db : Store) (facility_id : string)
  : list Appointment :=
  get_appointments_by_facility_id db facility_id.

(** [GET /doctor/{doctor_id}/status/{status}].  The path parameter is named
    [status] and hides the module [fastapi.status] inside the handler:
    [status.HTTP_403_FORBIDDEN] is looked up on a member of
    [AppointmentStatus], which has no such attribute, so building the
    [HTTPException] raises [AttributeError] instead. *)
Definition get_appointment_count_for_doctor (db : Store) (current_user : User)
    (doctor_id : string) (status : AppointmentStatus) : outcome nat :=
  if bool_decide (role current_user = "DOCTOR")
     && bool_decide (username current_user ≠ doctor_id)
  then Throw OtherExc
  else Done (get_appointment_count_by_doctor_and_status db doctor_id status).

(** [GET /patient/{patient_id}/status/{status}]: as for the doctor. *)
Definition get_appointment_count_for_patient (db : Store) (current_user : User)
    (patient_id : string) (status : AppointmentStatus) : outcome nat :=
  if bool_decide (role current_user = "PATIENT")
     && bool_decide (username current_user ≠ patient_id)
  then Throw OtherExc
  else Done (get_appointment_count_by_patient_and_status db patient_id status).

End Router.

Import Router.

(** ** Vocabulary of the properties *)

(** The tables that the creation and status-update operations build from the
    empty table, whatever the outcome of each call. *)
Inductive reachable : Store → Prop :=
  | reachable_empty : reachable []
  | reachable_create db appointment :
      reachable db → reachable (create_appointment db appointment).1
  | reachable_update db appointment_id new_status :
      reachable db →
      reachable (update_appointment_status db appointment_id new_status).1.

(** The id step of a creation goes through. *)
Definition id_generation_succeeds (db : Store) : Prop :=
  ∃ n, next_id db = Done n.

(** A booked row that stands in the way of a request: same doctor, same
    date, not cancelled, and [existing.start < new.end] and
    [existing.end > new.start]. *)
Definition overlaps (appointment : AppointmentRequest) (existing : Appointment)
  : Prop :=
  Models.doctor_id existing = Schemas.doctor_id appointment
  ∧ Models.appointment_date existing = Schemas.appointment_date appointment
  ∧ status existing ≠ "CANCELLED"
  ∧ time_lt (Models.appointment_start_time existing)
            (Schemas.appointment_end_time appointment) = true
  ∧ time_gt (Models.appointment_end_time existing)
            (Schemas.appointment_start_time appointment) = true.

(** A row counts against the slots of a doctor on a date. *)
Definition booked_for (doctor_id : string) (date : Py.date) (a : Appointment)
  : Prop :=
  Models.doctor_id a = doctor_id
  ∧ Models.appointment_date a = date
  ∧ status a ≠ "CANCELLED".

(** [t] lies in the half-open interval [[lo, hi)]. *)
Definition within (t lo hi : time) : Prop :=
  time_ge t lo = true ∧ time_lt t hi = true.

(** The status of a row is a member of [AppointmentStatus]. *)
Definition valid_status (a : Appointment) : Prop :=
  ∃ st, status a = value st.

(** The ids of a table are APT0001, APT0002, ... in insertion order. *)
Definition sequential_ids (db : Store) : Prop :=
  Models.appointment_id <$> db
  = format_appointment_id <$> seqZ 1 (Z.of_nat (length db)).

(** The four decimal digits of a number below ten thousand. *)
Definition four_digits (k : Z) : string :=
  String (digit_char (k / 1000))
    (String (digit_char (k / 100 mod 10))
       (String (digit_char (k / 10 mod 10))
          (String (digit_char (k mod 10)) ""))).

(** Sample data. *)
Definition hm (h m : Z) : time := mk_time h m 0 0.

Definition booking (id doctor : string) (d : date) (s e : time) (st : string)
  : Appointment :=
  mk_Appointment id doctor "PAT0001" "FAC0001" "Dr. John Smith" "Jane Doe"
    d s e "Regular checkup" None st.

Definition request_for (doctor : string) (d : date) (s e : time)
  : AppointmentRequest :=
  mk_AppointmentRequest doctor "PAT0001" "FAC0001" "Dr. John Smith" "Jane Doe"
    d s e "Regular checkup" None.

Definition body_for (doctor : string) (d : date) (s e : time) : RawRequest :=
  mk_RawRequest (Some doctor) (Some "PAT0001") (Some "FAC0001")
    (Some "Dr. John Smith") (Some "Jane Doe")
    (Some d) (Some s) (Some e) (Some "Regular checkup") None.

Definition slot (h : Z) : TimeSlot := mk_TimeSlot (hm h 0) (hm (h + 1) 0).

Definition monday : date := mk_date 2030 1 7.

(** The table after ten thousand creations, each cancelled afterwards. *)
Definition cancelled_row (k : Z) : Appointment :=
  booking (format_appointment_id k) "DOC0001" monday (hm 9 0) (hm 10 0) "CANCELLED".

Definition cancelled_upto (n : nat) : Store :=
  cancelled_row <$> seqZ 1 (Z.of_nat n).

Definition full_store : Store := cancelled_row <$> seqZ 1 10000.

Global Instance overlaps_dec appointment existing :
  Decision (overlaps appointment existing).
Proof. unfold overlaps. apply _. Defined.
Global Instance booked_for_dec doctor_id date a :
  Decision (booked_for doctor_id date a).
Proof. unfold booked_for. apply _. Defined.
Global Instance within_dec t lo hi : Decision (within t lo hi).
Proof. unfold within. apply _. Defined.

(** A slot is free when its start lies in no interval booked for the doctor
    on the date. *)
Definition free_slot (db : Store) (doctor_id : string) (date : Py.date)
    (s : TimeSlot) : Prop :=
  Forall (λ a, booked_for doctor_id date a →
               ¬ within (start_time s) (Models.appointment_start_time a)
                        (Models.appointment_end_time a)) db.

Global Instance free_slot_dec db doctor_id date s :
  Decision (free_slot db doctor_id date s).
Proof. unfold free_slot. apply _. Defined.

(** ** Vocabulary of the further properties *)

(** [a] is earlier than [b], component by component. *)
Definition time_before (a b : time) : Prop :=
  hour a < hour b
  ∨ (hour a = hour b
     ∧ (minute a < minute b
        ∨ (minute a = minute b
           ∧ (second a < second b
              ∨ (second a = second b ∧ microsecond a < microsecond b))))).

(** Two rows book the same doctor on the same date for intervals that
    overlap, and neither is cancelled. *)
Definition rows_overlap (a b : Appointment) : Prop :=
  Models.doctor_id a = Models.doctor_id b
  ∧ Models.appointment_date a = Models.appointment_date b
  ∧ status a ≠ "CANCELLED" ∧ status b ≠ "CANCELLED"
  ∧ time_lt (Models.appointment_start_time a) (Models.appointment_end_time b) = true
  ∧ time_lt (Models.appointment_start_time b) (Models.appointment_end_time a) = true.

Definition double_booked (db : Store) : Prop :=
  ∃ i j a b, i ≠ j ∧ db !! i = Some a ∧ db !! j = Some b ∧ rows_overlap a b.

(** The tables that creations and status updates build from [db0]. *)
Inductive reaches (db0 : Store) : Store → Prop :=
  | reaches_refl : reaches db0 db0
  | reaches_create db appointment :
      reaches db0 db → reaches db0 (create_appointment db appointment).1
  | reaches_update db appointment_id new_status :
      reaches db0 db →
      reaches db0 (update_appointment_status db appointment_id new_status).1.

(** A row without its status. *)
Definition without_status (a : Appointment) : Appointment := set_status a "".

(** The tables that the two writing endpoints build from the empty table,
    each request validated on its own current date.  Every request is one
    that authentication let through: [get_current_user] and its scopes are
    not part of the embedding. *)
Inductive served : Store → Prop :=
  | served_empty : served []
  | served_post today db body :
      served db → served (create_new_appointment today db body).1
  | served_put today db appointment_id raw_status :
      served db →
      served (update_status_request today db appointment_id raw_status).1.

(** A request as the body it came from. *)
Definition body_of (appointment : AppointmentRequest) : RawRequest :=
  mk_RawRequest (Some (Schemas.doctor_id appointment))
    (Some (Schemas.patient_id appointment))
    (Some (Schemas.facility_id appointment))
    (Some (Schemas.doctor_name appointment))
    (Some (Schemas.patient_name appointment))
    (Some (Schemas.appointment_date appointment))
    (Some (Schemas.appointment_start_time appointment))
    (Some (Schemas.appointment_end_time appointment))
    (Some (Schemas.purpose_of_visit appointment))
    (Schemas.description appointment).

(** The constraints of [AppointmentRequest] on the current date [today]. *)
Definition request_constraints (today : date) (appointment : AppointmentRequest)
  : Prop :=
  (2 ≤ len (Schemas.doctor_name appointment) ≤ 100)%nat
  ∧ (2 ≤ len (Schemas.patient_name appointment) ≤ 100)%nat
  ∧ date_lt (Schemas.appointment_date appointment) today = false
  ∧ time_gt (Schemas.appointment_end_time appointment)
            (Schemas.appointment_start_time appointment) = true
  ∧ (2 ≤ len (Schemas.purpose_of_visit appointment) ≤ 255)%nat
  ∧ match Schemas.description appointment with
    | Some s => (len s ≤ 500)%nat
    | None => True
    end.


(** Sample texts outside ASCII: the letter e with acute accent, U+00E9, one
    character of two bytes, and [n] copies of a text. *)
Definition e_acute : string := String (ascii_of_N 195) (String (ascii_of_N 169) "").

Fixpoint copies (n : nat) (s : string) : string :=
  match n with O => "" | S n' => s +:+ copies n' s end.

Definition body_named (doctor_name : string) : RawRequest :=
  mk_RawRequest (Some "DOC0001") (Some "PAT0001") (Some "FAC0001")
    (Some doctor_name) (Some "Jane Doe")
    (Some monday) (Some (hm 9 0)) (Some (hm 10 0)) (Some "Regular checkup") None.

(** * Properties *)

(** ** The Python fragment on sample inputs *)

Example str_decimal :
  Py.str 7 = "7" ∧ Py.str 0 = "0" ∧ Py.str (-12) = "-12"
  ∧ Py.str 10000 = "10000" ∧ Py.str 1234567890 = "1234567890".
Proof. by split_and!. Qed.

Example zfill_pads :
  zfill 4 "1" = "0001" ∧ zfill 4 "10000" = "10000" ∧ zfill 4 "-4" = "-004".
Proof. by split_and!. Qed.

Example int_reads :
  Py.int "0042" = Some 42 ∧ Py.int " 1_000 " = Some 1000
  ∧ Py.int "-5" = Some (-5) ∧ Py.int "+7" = Some 7.
Proof. by split_and!. Qed.

Example int_raises :
  Py.int "" = None ∧ Py.int "12a" = None ∧ Py.int "1__0" = None
  ∧ Py.int "_1" = None ∧ Py.int "1_" = None ∧ Py.int "- 1" = None
  ∧ Py.int "-2024-001" = None.
Proof. by split_and!. Qed.

Example format_appointment_id_samples :
  format_appointment_id 1 = "APT0001"
  ∧ format_appointment_id 42 = "APT0042"
  ∧ format_appointment_id 9999 = "APT9999"
  ∧ format_appointment_id 10000 = "APT10000".
Proof. by split_and!. Qed.

Example ids_order_breaks :
  String.ltb "APT9998" "APT9999" = true
  ∧ String.ltb "APT9999" "APT10000" = false.
Proof. by split_and!. Qed.

(** ** Order on dates and times *)

Section Order.

Lemma date_cmp_refl d : date_cmp d d = Eq.
Proof. unfold date_cmp. by rewrite !Z.compare_refl. Qed.

Lemma time_cmp_refl t : time_cmp t t = Eq.
Proof. unfold time_cmp. by rewrite !Z.compare_refl. Qed.

Lemma date_lt_irrefl d : date_lt d d = false.
Proof. unfold date_lt. by rewrite date_cmp_refl. Qed.

Lemma time_lt_irrefl t : time_lt t t = false.
Proof. unfold time_lt. by rewrite time_cmp_refl. Qed.

Lemma time_gt_irrefl t : time_gt t t = false.
Proof. unfold time_gt. by rewrite time_cmp_refl. Qed.

(** [e <= s] and [e > s] exclude each other and one of them holds. *)
Lemma time_le_gt e s : time_le e s = negb (time_gt e s).
Proof. done. Qed.

Lemma time_ge_lt t lo : time_ge t lo = negb (time_lt t lo).
Proof. done. Qed.

Lemma lex_antisym c k c' k' :
  c' = CompOpp c → k' = CompOpp k → lex c' k' = CompOpp (lex c k).
Proof. intros -> ->. by destruct c. Qed.

Lemma time_cmp_antisym a b : time_cmp b a = CompOpp (time_cmp a b).
Proof.
  unfold time_cmp.
  repeat (apply lex_antisym; [apply Z.compare_antisym|]).
  apply Z.compare_antisym.
Qed.

Lemma time_gt_lt a b : time_gt a b = time_lt b a.
Proof.
  unfold time_gt, time_lt. rewrite (time_cmp_antisym b a).
  by destruct (time_cmp b a).
Qed.

End Order.

(** ** Slot availability *)

Section Slots.

Lemma foldl_collect {A} (p : A → bool) (l acc : list A) :
  foldl (λ acc x, if p x then acc ++ [x] else acc) acc l
  = acc ++ List.filter p l.
Proof.
  revert acc. induction l as [|x l IH]; intros acc; simpl.
  - by rewrite app_nil_r.
  - rewrite IH. destruct (p x); [|done].
    by rewrite <- app_assoc.
Qed.

Lemma is_available_true slot booked_slots :
  is_available slot booked_slots = true
  ↔ Forall (λ b, ¬ within (start_time slot) b.1 b.2) booked_slots.
Proof.
  unfold within. induction booked_slots as [|b l IH]; simpl.
  - split; [constructor | done].
  - rewrite Forall_cons.
    destruct (time_ge _ _) eqn:Hge, (time_lt _ _) eqn:Hlt; simpl;
      rewrite ?IH; intuition congruence.
Qed.

Lemma Forall_booked (P : time → time → Prop) (Q : Appointment → Prop)
    `{∀ a, Decision (Q a)} (db : Store) :
  Forall (λ b, P b.1 b.2)
    ((λ a, (Models.appointment_start_time a, Models.appointment_end_time a))
       <$> filter Q db)
  ↔ Forall (λ a, Q a → P (Models.appointment_start_time a)
                           (Models.appointment_end_time a)) db.
Proof.
  rewrite Forall_fmap. rewrite !Forall_forall. split.
  - intros Hall a Ha HQ. apply (Hall a). by apply list_elem_of_filter.
  - intros Hall a [HQ Ha]%list_elem_of_filter. by apply Hall.
Qed.

Lemma available_eq_filter db doctor_id date :
  get_available_time_slots db doctor_id date
  = filter (free_slot db doctor_id date) working_hours.
Proof.
  unfold get_available_time_slots. rewrite foldl_collect.
  rewrite app_nil_l.
  generalize working_hours as l.
  induction l as [|s l IH]; [done|].
  cbn [List.filter]. rewrite filter_cons, <- IH.
  destruct (is_available s _) eqn:Hav.
  - apply is_available_true in Hav.
    rewrite (Forall_booked (λ lo hi, ¬ within (start_time s) lo hi)) in Hav.
    by rewrite decide_True.
  - rewrite decide_False; [done|]. intros Hfree.
    unfold free_slot, booked_for in Hfree.
    apply not_true_iff_false in Hav. apply Hav.
    apply is_available_true.
    by apply (Forall_booked (λ lo hi, ¬ within (start_time s) lo hi)).
Qed.

End Slots.

(** C2.  For every doctor and date, [get_available_time_slots] returns
    exactly those of the eight hourly slots 09:00-10:00 ... 16:00-17:00, in
    chronological order, whose start lies in [[booked.start, booked.end)] for
    no row of that doctor and date whose status is not CANCELLED.  With a
    single 09:00-10:00 booking the seven other slots are returned, and a
    09:30-10:30 booking leaves the 09:00-10:00 slot available. *)
Theorem available_slots_exact (db : Store) (doctor_id : string) (date : date) :
  working_hours
  = [slot 9; slot 10; slot 11; slot 12; slot 13; slot 14; slot 15; slot 16]
  ∧ get_available_time_slots db doctor_id date
    = filter (free_slot db doctor_id date) working_hours
  ∧ (∀ s, s ∈ get_available_time_slots db doctor_id date
          ↔ s ∈ working_hours
            ∧ ∀ a, a ∈ db → booked_for doctor_id date a →
                   ¬ within (start_time s) (Models.appointment_start_time a)
                            (Models.appointment_end_time a))
  ∧ get_available_time_slots
      [booking "APT0001" doctor_id date (hm 9 0) (hm 10 0) "SCHEDULED"]
      doctor_id date
    = [slot 10; slot 11; slot 12; slot 13; slot 14; slot 15; slot 16]
  ∧ get_available_time_slots
      [booking "APT0001" doctor_id date (hm 9 30) (hm 10 30) "SCHEDULED"]
      doctor_id date
    = [slot 9; slot 11; slot 12; slot 13; slot 14; slot 15; slot 16]
  ∧ get_available_time_slots
      [booking "APT0001" doctor_id date (hm 9 0) (hm 10 0) "CANCELLED"]
      doctor_id date
    = working_hours.
Proof.
  split; [reflexivity|]. split; [apply available_eq_filter|]. split.
  - intros s. rewrite available_eq_filter, list_elem_of_filter.
    unfold free_slot. rewrite Forall_forall. tauto.
  - unfold get_available_time_slots. rewrite !foldl_collect.
    cbn [filter list_filter]. rewrite !decide_True by done.
    rewrite decide_False by (intros (_ & _ & H); by apply H).
    split_and!; reflexivity.
Qed.

(** ** Access to a patient's appointments *)

(** C6.  [get_patient_appointments] raises the 403 exactly when the caller's
    role is PATIENT and the caller's name differs from the requested
    [patient_id]; a PATIENT asking for their own id, and every caller with
    role ADMIN, DOCTOR or STAFF, receives that patient's appointments. *)
Theorem patient_listing_authorization (db : Store) (current_user : User)
    (patient_id : string) :
  (get_patient_appointments db current_user patient_id = Raise forbidden_patient
   ↔ role current_user = "PATIENT" ∧ username current_user ≠ patient_id)
  ∧ (role current_user = "PATIENT" → username current_user = patient_id →
     get_patient_appointments db current_user patient_id
     = Return (filter (λ a, Models.patient_id a = patient_id) db))
  ∧ (role current_user = "ADMIN" ∨ role current_user = "DOCTOR"
     ∨ role current_user = "STAFF" →
     get_patient_appointments db current_user patient_id
     = Return (filter (λ a, Models.patient_id a = patient_id) db))
  ∧ (∀ e, get_patient_appointments db current_user patient_id = Raise e →
          e = forbidden_patient ∧ status_code e = 403).
Proof.
  unfold get_patient_appointments, get_appointments_by_patient_id.
  destruct (decide (role current_user = "PATIENT")) as [Hr|Hr];
    destruct (decide (username current_user = patient_id)) as [Hu|Hu];
    rewrite ?(bool_decide_eq_true_2 _ Hr), ?(bool_decide_eq_false_2 _ Hr);
    [rewrite (bool_decide_eq_false_2 (username current_user ≠ patient_id))
       by tauto
    |rewrite (bool_decide_eq_true_2 (username current_user ≠ patient_id))
       by tauto
    | | ]; simpl;
    (split_and!;
      [split; [try discriminate; try done | intros [??]; done]
      | try done
      | try (intros [H|[H|H]]; rewrite H in Hr; discriminate); try done
      | intros e He; try discriminate; by inversion He]).
Qed.

(** ** Request validation *)

Section Validation.

Lemma elem_of_field_error {A} loc loc' (x : option A) :
  loc ∈ field_error loc' x ↔ loc = loc' ∧ x = None.
Proof.
  destruct x; simpl.
  - rewrite elem_of_nil. split; [done | intros [_ ?]; discriminate].
  - rewrite list_elem_of_singleton. split; [done | by intros [? _]].
Qed.

(** When validation fails, the date and the end time are among the fields
    reported exactly when their own checks failed. *)
Lemma validate_reports today body errors :
  validate today body = inl errors →
  (("appointment_date" ∈ errors
    ↔ (raw_appointment_date body ≫= validate_appointment_date today) = None)
   ∧ ("appointment_end_time" ∈ errors
      ↔ (raw_appointment_end_time body ≫=
           λ v, validate_appointment_time v (raw_appointment_start_time body))
        = None)).
Proof.
  unfold validate. cbv zeta.
  destruct (_ ≫= _) as [m|]; [discriminate|]. intros [= <-].
  rewrite !elem_of_app, !elem_of_field_error.
  split; split; intuition congruence.
Qed.

Lemma validate_fails_date today body :
  (raw_appointment_date body ≫= validate_appointment_date today) = None →
  ∃ errors, validate today body = inl errors.
Proof.
  intros Hd. unfold validate. cbv zeta. rewrite Hd.
  destruct (required_str 0 None (raw_doctor_id body)),
    (required_str 0 None (raw_patient_id body)),
    (required_str 0 None (raw_facility_id body)),
    (required_str 2 (Some 100%nat) (raw_doctor_name body)),
    (required_str 2 (Some 100%nat) (raw_patient_name body)); simpl; eauto.
Qed.

Lemma validate_fails_end today body :
  (raw_appointment_end_time body ≫=
     λ v, validate_appointment_time v (raw_appointment_start_time body)) = None →
  ∃ errors, validate today body = inl errors.
Proof.
  intros He. unfold validate. cbv zeta. rewrite He.
  destruct (required_str 0 None (raw_doctor_id body)),
    (required_str 0 None (raw_patient_id body)),
    (required_str 0 None (raw_facility_id body)),
    (required_str 2 (Some 100%nat) (raw_doctor_name body)),
    (required_str 2 (Some 100%nat) (raw_patient_name body)),
    (raw_appointment_date body ≫= _),
    (raw_appointment_start_time body); simpl; eauto.
Qed.

End Validation.

(** ** Validation as a whole *)

Section WholeValidation.

Lemma required_str_Some lo hi x s :
  required_str lo hi x = Some s
  ↔ x = Some s
    ∧ (lo ≤ len s)%nat
    ∧ match hi with Some h => (len s ≤ h)%nat | None => True end.
Proof.
  unfold required_str. destruct x as [s'|]; simpl; [|by split; [|intros []]].
  destruct (Nat.leb_spec lo (len s')) as [Hlo|Hlo]; simpl.
  - destruct hi as [h|].
    + destruct (Nat.leb_spec (len s') h) as [Hhi|Hhi].
      * split; [by intros [= <-] | by intros [[= <-] _]].
      * split; [done | intros ([= <-] & _ & ?); lia].
    + split; [by intros [= <-] | by intros [[= <-] _]].
  - split; [done | intros ([= <-] & ? & _); lia].
Qed.

Lemma optional_str_Some hi x y :
  optional_str hi x = Some y
  ↔ x = y ∧ match y with Some s => (len s ≤ hi)%nat | None => True end.
Proof.
  unfold optional_str. destruct x as [s|].
  - destruct (Nat.leb_spec (len s) hi) as [Hhi|Hhi].
    + split; [by intros [= <-] | by intros [<- _]].
    + split; [done | intros [<- ?]; lia].
  - split; [by intros [= <-] | by intros [<- _]].
Qed.

Lemma validate_appointment_date_Some today v d :
  validate_appointment_date today v = Some d ↔ v = d ∧ date_lt d today = false.
Proof.
  unfold validate_appointment_date. destruct (date_lt v today) eqn:Hlt.
  - split; [done | intros [<- ?]; congruence].
  - split; [by intros [= <-] | by intros [<- _]].
Qed.

Lemma validate_appointment_time_Some v st e :
  validate_appointment_time v (Some st) = Some e
  ↔ v = e ∧ time_gt e st = true.
Proof.
  unfold validate_appointment_time. rewrite time_le_gt.
  destruct (time_gt v st) eqn:Hgt; simpl.
  - split; [by intros [= <-] | by intros [<- _]].
  - split; [done | intros [<- ?]; congruence].
Qed.

Lemma validate_inr today body appointment :
  validate today body = inr appointment
  ↔ required_str 0 None (raw_doctor_id body) = Some (Schemas.doctor_id appointment)
    ∧ required_str 0 None (raw_patient_id body)
      = Some (Schemas.patient_id appointment)
    ∧ required_str 0 None (raw_facility_id body)
      = Some (Schemas.facility_id appointment)
    ∧ required_str 2 (Some 100%nat) (raw_doctor_name body)
      = Some (Schemas.doctor_name appointment)
    ∧ required_str 2 (Some 100%nat) (raw_patient_name body)
      = Some (Schemas.patient_name appointment)
    ∧ (raw_appointment_date body ≫= validate_appointment_date today)
      = Some (Schemas.appointment_date appointment)
    ∧ raw_appointment_start_time body
      = Some (Schemas.appointment_start_time appointment)
    ∧ (raw_appointment_end_time body ≫=
         λ v, validate_appointment_time v (raw_appointment_start_time body))
      = Some (Schemas.appointment_end_time appointment)
    ∧ required_str 2 (Some 255%nat) (raw_purpose_of_visit body)
      = Some (Schemas.purpose_of_visit appointment)
    ∧ optional_str 500 (raw_description body)
      = Some (Schemas.description appointment).
Proof.
  unfold validate. cbv zeta.
  destruct (required_str 0 None (raw_doctor_id body)) as [f1|];
    [|split; [done | by intros [? _]]].
  destruct (required_str 0 None (raw_patient_id body)) as [f2|];
    [|split; [done | by intros (_ & ? & _)]].
  destruct (required_str 0 None (raw_facility_id body)) as [f3|];
    [|split; [done | by intros (_ & _ & ? & _)]].
  destruct (required_str 2 (Some 100%nat) (raw_doctor_name body)) as [f4|];
    [|split; [done | by intros (_ & _ & _ & ? & _)]].
  destruct (required_str 2 (Some 100%nat) (raw_patient_name body)) as [f5|];
    [|split; [done | by intros (_ & _ & _ & _ & ? & _)]].
  destruct (raw_appointment_date body ≫= validate_appointment_date today)
    as [f6|]; [|split; [done | by intros (_ & _ & _ & _ & _ & ? & _)]].
  destruct (raw_appointment_start_time body) as [f7|];
    [|split; [done | by intros (_ & _ & _ & _ & _ & _ & ? & _)]].
  destruct (raw_appointment_end_time body ≫= _) as [f8|];
    [|split; [done | by intros (_ & _ & _ & _ & _ & _ & _ & ? & _)]].
  destruct (required_str 2 (Some 255%nat) (raw_purpose_of_visit body)) as [f9|];
    [|split; [done | by intros (_ & _ & _ & _ & _ & _ & _ & _ & ? & _)]].
  destruct (optional_str 500 (raw_description body)) as [f10|];
    [|split; [done | by intros (_ & _ & _ & _ & _ & _ & _ & _ & _ & ?)]].
  simpl. destruct appointment. simpl. split.
  - intros [= <- <- <- <- <- <- <- <- <- <-]. by split_and!.
  - intros (?&?&?&?&?&?&?&?&?&?). by simplify_eq.
Qed.

Lemma validate_inr_constraints today body appointment :
  validate today body = inr appointment
  ↔ body = body_of appointment ∧ request_constraints today appointment.
Proof.
  rewrite validate_inr, !required_str_Some, optional_str_Some.
  unfold request_constraints, body_of.
  destruct body as [b1 b2 b3 b4 b5 b6 b7 b8 b9 b10]. simpl. split.
  - intros ((-> & _) & (-> & _) & (-> & _) & (-> & ? & ?) & (-> & ? & ?)
            & Hd & -> & He & (-> & ? & ?) & (-> & ?)).
    destruct b6 as [d|]; [|done]. destruct b8 as [e|]; [|done].
    simpl in Hd, He.
    apply validate_appointment_date_Some in Hd as [-> ?].
    apply validate_appointment_time_Some in He as [-> ?].
    by split_and!.
  - intros [[= -> -> -> -> -> -> -> -> -> ->] (? & ? & ? & ? & ? & ?)].
    split_and!; try done; try lia.
    + by apply validate_appointment_date_Some.
    + by apply validate_appointment_time_Some.
Qed.

Lemma validate_body_of today appointment :
  request_constraints today appointment →
  validate today (body_of appointment) = inr appointment.
Proof. intros Hc. by apply validate_inr_constraints. Qed.

End WholeValidation.

(** ** The response model *)

Section Responses.

Lemma validate_response_nil today row :
  validate_response today row = []
  ↔ date_lt (Models.appointment_date row) today = false
    ∧ time_gt (Models.appointment_end_time row)
              (Models.appointment_start_time row) = true.
Proof.
  unfold validate_response, validate_appointment_date, validate_appointment_time.
  rewrite time_le_gt.
  destruct (date_lt _ today), (time_gt _ _); simpl; split;
    (done || by intros [??]).
Qed.

Lemma validate_response_past today row :
  date_lt (Models.appointment_date row) today = true →
  "appointment_date" ∈ validate_response today row.
Proof.
  intros Hlt. unfold validate_response, validate_appointment_date.
  rewrite Hlt. simpl. apply list_elem_of_here.
Qed.

Lemma serialize_response_store today out :
  (serialize_response today out).1 = out.1.
Proof.
  destruct out as [db' [row|e]]; simpl; [|done].
  by destruct (validate_response today row).
Qed.

Lemma serialize_response_Return today db' row :
  date_lt (Models.appointment_date row) today = false →
  time_gt (Models.appointment_end_time row)
          (Models.appointment_start_time row) = true →
  serialize_response today (db', Return row) = (db', Respond row).
Proof.
  intros Hd Ht. simpl.
  by rewrite (proj2 (validate_response_nil today row) (conj Hd Ht)).
Qed.

Lemma serialize_response_past today db' row :
  date_lt (Models.appointment_date row) today = true →
  serialize_response today (db', Return row)
  = (db', ResponseValidationError (validate_response today row))
  ∧ "appointment_date" ∈ validate_response today row.
Proof.
  intros Hlt. pose proof (validate_response_past today row Hlt) as Hin.
  split; [|done]. simpl.
  destruct (validate_response today row); [by apply elem_of_nil in Hin|done].
Qed.

Lemma create_new_appointment_inr today db body appointment :
  validate today body = inr appointment →
  (create_new_appointment today db body).1 = (create_appointment db appointment).1.
Proof.
  intros Hv. unfold create_new_appointment. rewrite Hv.
  apply serialize_response_store.
Qed.

Lemma create_appointment_row db appointment db' row :
  create_appointment db appointment = (db', Return row) →
  ∃ appointment_id, row = new_appointment appointment_id appointment.
Proof.
  unfold create_appointment, create_appointment_body.
  destruct (next_id db) as [n|[e|]]; simpl; [|by intros [=]..].
  destruct (list_find _ db); simpl; [by intros [=]|].
  destruct (add_commit db _) as [db''|[e|]]; simpl; [|by intros [=]..].
  intros [= <- <-]. eauto.
Qed.

Lemma create_new_appointment_Respond today db body appointment db' row :
  validate today body = inr appointment →
  create_appointment db appointment = (db', Return row) →
  create_new_appointment today db body = (db', Respond row).
Proof.
  intros Hv Hc. unfold create_new_appointment. rewrite Hv, Hc.
  apply validate_inr_constraints in Hv as [_ (_ & _ & Hd & Ht & _)].
  destruct (create_appointment_row _ _ _ _ Hc) as [appointment_id ->].
  by apply serialize_response_Return.
Qed.

Lemma update_status_store today db appointment_id new_status :
  (update_status today db appointment_id new_status).1
  = (update_appointment_status db appointment_id new_status).1.
Proof. apply serialize_response_store. Qed.

End Responses.

(** C7.  When both time fields are present and the end is not after the
    start, validation fails on [appointment_end_time], the endpoint answers
    with the validation error and the table is unchanged; when the end is
    after the start the check returns the end time and the field is never
    among those reported. *)
Theorem end_time_must_follow_start (today : date) (db : Store)
    (body : RawRequest) (s e : time) :
  raw_appointment_start_time body = Some s →
  raw_appointment_end_time body = Some e →
  (time_le e s = true →
   validate_appointment_time e (Some s) = None
   ∧ ∃ errors, validate today body = inl errors
               ∧ "appointment_end_time" ∈ errors
               ∧ create_new_appointment today db body
                 = (db, RequestValidationError errors))
  ∧ (time_gt e s = true →
     validate_appointment_time e (Some s) = Some e
     ∧ ∀ errors, validate today body = inl errors →
                 "appointment_end_time" ∉ errors).
Proof.
  intros Hs He.
  assert (Hchk : (raw_appointment_end_time body ≫=
                    λ v, validate_appointment_time v (raw_appointment_start_time body))
                 = validate_appointment_time e (Some s))
    by (by rewrite He, Hs).
  split; intros Hcmp.
  - assert (Hval : validate_appointment_time e (Some s) = None)
      by (unfold validate_appointment_time; by rewrite Hcmp).
    split; [done|]. rewrite Hval in Hchk.
    destruct (validate_fails_end today body Hchk) as [errors Hv].
    exists errors. split; [done|]. split.
    + by apply (validate_reports _ _ _ Hv).
    + unfold create_new_appointment. by rewrite Hv.
  - assert (Hval : validate_appointment_time e (Some s) = Some e)
      by (unfold validate_appointment_time; by rewrite time_le_gt, Hcmp).
    split; [done|]. rewrite Hval in Hchk.
    intros errors Hv Hin. apply (validate_reports _ _ _ Hv) in Hin.
    rewrite Hchk in Hin. discriminate.
Qed.

Lemma end_time_must_follow_start_witness :
  raw_appointment_start_time (body_for "DOC0001" monday (hm 10 0) (hm 9 0))
  = Some (hm 10 0)
  ∧ raw_appointment_end_time (body_for "DOC0001" monday (hm 10 0) (hm 9 0))
    = Some (hm 9 0)
  ∧ time_le (hm 9 0) (hm 10 0) = true
  ∧ ∃ errors,
      validate monday (body_for "DOC0001" monday (hm 10 0) (hm 9 0)) = inl errors
      ∧ "appointment_end_time" ∈ errors
      ∧ create_new_appointment monday []
          (body_for "DOC0001" monday (hm 10 0) (hm 9 0))
        = ([], RequestValidationError errors).
Proof.
  split; [reflexivity|]. split; [reflexivity|]. split; [reflexivity|].
  apply (end_time_must_follow_start monday []
           (body_for "DOC0001" monday (hm 10 0) (hm 9 0)) (hm 10 0) (hm 9 0));
    reflexivity.
Defined.

(** ** Status updates *)

Section StatusUpdate.

Lemma get_appointment_by_id_missing db appointment_id :
  appointment_id ∉ (Models.appointment_id <$> db) →
  get_appointment_by_id db appointment_id = Throw (HTTPExc not_found).
Proof.
  intros Hnot. unfold get_appointment_by_id.
  destruct (list_find _ db) as [[i a]|] eqn:Hfind; [|done].
  apply list_find_Some in Hfind as (Hi & Ha & _).
  destruct Hnot. apply list_elem_of_fmap. exists a.
  split; [done|]. by eapply list_elem_of_lookup_2.
Qed.

(** An unknown id: the 404 of the lookup is caught by the handler of
    [update_appointment_status] and replaced. *)
Lemma update_appointment_status_missing db appointment_id new_status :
  appointment_id ∉ (Models.appointment_id <$> db) →
  update_appointment_status db appointment_id new_status
  = (db, Raise status_update_error).
Proof.
  intros Hnot. unfold update_appointment_status, update_appointment_status_body.
  by rewrite (get_appointment_by_id_missing _ _ Hnot).
Qed.

Lemma get_appointment_by_id_unique db i a :
  db !! i = Some a →
  NoDup (Models.appointment_id <$> db) →
  get_appointment_by_id db (Models.appointment_id a) = Done (i, a).
Proof.
  intros Hi Hnd. unfold get_appointment_by_id.
  destruct (list_find _ db) as [[j b]|] eqn:Hfind.
  - apply list_find_Some in Hfind as (Hj & Hb & _).
    assert (j = i) as ->.
    { eapply (NoDup_lookup _ _ _ _ Hnd); rewrite list_lookup_fmap.
      - by rewrite Hj.
      - rewrite Hi. simpl. by rewrite Hb. }
    congruence.
  - apply list_find_None in Hfind. rewrite Forall_forall in Hfind.
    destruct (Hfind a); [by eapply list_elem_of_lookup_2 | done].
Qed.

Lemma update_appointment_status_unique db i a new_status :
  db !! i = Some a →
  NoDup (Models.appointment_id <$> db) →
  update_appointment_status db (Models.appointment_id a) new_status
  = (<[i := set_status a (value new_status)]> db,
     Return (set_status a (value new_status))).
Proof.
  intros Hi Hnd.
  unfold update_appointment_status, update_appointment_status_body.
  by rewrite (get_appointment_by_id_unique _ _ _ Hi Hnd).
Qed.

Lemma set_status_id a st :
  Models.appointment_id (set_status a st) = Models.appointment_id a.
Proof. done. Qed.

(** The table after [update_appointment_status]: unchanged, or one row
    with another status. *)
Lemma update_appointment_status_store db appointment_id new_status :
  (update_appointment_status db appointment_id new_status).1 = db
  ∨ ∃ i a, db !! i = Some a
           ∧ (update_appointment_status db appointment_id new_status).1
             = <[i := set_status a (value new_status)]> db.
Proof.
  unfold update_appointment_status, update_appointment_status_body,
    get_appointment_by_id.
  destruct (list_find _ db) as [[i a]|] eqn:Hfind; simpl; [|by left].
  right. exists i, a. by apply list_find_Some in Hfind as (Hi & _).
Qed.

End StatusUpdate.

(** C4.  The status update of an id that no row has leaves the table
    unchanged, but the error it raises is the generic 500 of the handler, not
    the 404 that the lookup raised: evaluated on the empty table, next to the
    lookup itself. *)
Theorem update_unknown_id_raises_generic :
  update_appointment_status [] "APT0001" COMPLETED
  = ([], Raise status_update_error)
  ∧ status_code status_update_error = 500
  ∧ status_update_error ≠ not_found
  ∧ get_appointment_by_id [] "APT0001" = Throw (HTTPExc not_found)
  ∧ status_code not_found = 404.
Proof. split_and!; done. Qed.

(** C5.  For every row of a table with unique ids and every status value,
    [update_appointment_status] succeeds whatever the row's present status,
    writes the new status into that row, keeps the row's other fields, and
    leaves all other rows as they were.  No conflict check is made: a
    cancelled booking can be put back to SCHEDULED over a booking that took
    its place. *)
Theorem update_sets_status_only (db : Store) (i : nat) (a : Appointment)
    (new_status : AppointmentStatus) :
  db !! i = Some a →
  NoDup (Models.appointment_id <$> db) →
  let a' := set_status a (value new_status) in
  update_appointment_status db (Models.appointment_id a) new_status
  = (<[i := a']> db, Return a')
  ∧ (<[i := a']> db) !! i = Some a'
  ∧ status a' = value new_status
  ∧ a' = mk_Appointment (Models.appointment_id a) (Models.doctor_id a)
           (Models.patient_id a) (Models.facility_id a) (Models.doctor_name a)
           (Models.patient_name a) (Models.appointment_date a)
           (Models.appointment_start_time a) (Models.appointment_end_time a)
           (Models.purpose_of_visit a) (Models.description a)
           (value new_status)
  ∧ length (<[i := a']> db) = length db
  ∧ (∀ j, j ≠ i → (<[i := a']> db) !! j = db !! j)
  ∧ update_appointment_status
      [booking "APT0001" "DOC0001" monday (hm 9 0) (hm 10 0) "CANCELLED";
       booking "APT0002" "DOC0001" monday (hm 9 0) (hm 10 0) "SCHEDULED"]
      "APT0001" SCHEDULED
    = ([booking "APT0001" "DOC0001" monday (hm 9 0) (hm 10 0) "SCHEDULED";
        booking "APT0002" "DOC0001" monday (hm 9 0) (hm 10 0) "SCHEDULED"],
       Return (booking "APT0001" "DOC0001" monday (hm 9 0) (hm 10 0) "SCHEDULED")).
Proof.
  intros Hi Hnd a'. split_and!.
  - by apply update_appointment_status_unique.
  - apply list_lookup_insert_eq. by eapply lookup_lt_Some.
  - done.
  - done.
  - apply length_insert.
  - intros j Hj. by apply list_lookup_insert_ne.
  - reflexivity.
Qed.

Lemma update_sets_status_only_witness :
  [booking "APT0001" "DOC0001" monday (hm 9 0) (hm 10 0) "COMPLETED";
   booking "APT0002" "DOC0002" monday (hm 9 0) (hm 10 0) "SCHEDULED"] !! 0%nat
  = Some (booking "APT0001" "DOC0001" monday (hm 9 0) (hm 10 0) "COMPLETED")
  ∧ NoDup (Models.appointment_id <$>
           [booking "APT0001" "DOC0001" monday (hm 9 0) (hm 10 0) "COMPLETED";
            booking "APT0002" "DOC0002" monday (hm 9 0) (hm 10 0) "SCHEDULED"])
  ∧ update_appointment_status
      [booking "APT0001" "DOC0001" monday (hm 9 0) (hm 10 0) "COMPLETED";
       booking "APT0002" "DOC0002" monday (hm 9 0) (hm 10 0) "SCHEDULED"]
      "APT0001" SCHEDULED
    = ([booking "APT0001" "DOC0001" monday (hm 9 0) (hm 10 0) "SCHEDULED";
        booking "APT0002" "DOC0002" monday (hm 9 0) (hm 10 0) "SCHEDULED"],
       Return (booking "APT0001" "DOC0001" monday (hm 9 0) (hm 10 0) "SCHEDULED")).
Proof.
  assert (Hnd : NoDup (Models.appointment_id <$>
           [booking "APT0001" "DOC0001" monday (hm 9 0) (hm 10 0) "COMPLETED";
            booking "APT0002" "DOC0002" monday (hm 9 0) (hm 10 0) "SCHEDULED"])).
  { apply (bool_decide_unpack _). vm_compute. exact I. }
  split; [reflexivity|]. split; [exact Hnd|].
  apply (update_sets_status_only
           [booking "APT0001" "DOC0001" monday (hm 9 0) (hm 10 0) "COMPLETED";
            booking "APT0002" "DOC0002" monday (hm 9 0) (hm 10 0) "SCHEDULED"]
           0 (booking "APT0001" "DOC0001" monday (hm 9 0) (hm 10 0) "COMPLETED")
           SCHEDULED eq_refl Hnd).
Defined.

(** ** The date of an appointment after its creation *)

(** C8.  A request whose date is earlier than the current date fails
    validation on [appointment_date], the endpoint answers with the
    validation error and the table is unchanged; a date equal to the current
    date or later passes the check, and the response to the creation passes
    it again on the same date.  The functions of [crud.py] never look at the
    date.  The last clause of the claim fails all the same:
    [AppointmentResponse] derives from [AppointmentRequest] and inherits its
    validators, and [PUT /id/{appointment_id}/status] declares it as its
    [response_model].  Once the date of a row is past, a status update of
    that row is committed and then answered with the error of the response
    validation, on [appointment_date]: a booking of 2030-01-07 completed on
    2030-01-08 is stored as COMPLETED and reported as a failure. *)
Theorem past_date_rejected (today : date) (db : Store) (body : RawRequest)
    (d : date) :
  raw_appointment_date body = Some d →
  (date_lt d today = true →
   validate_appointment_date today d = None
   ∧ ∃ errors, validate today body = inl errors
               ∧ "appointment_date" ∈ errors
               ∧ create_new_appointment today db body
                 = (db, RequestValidationError errors))
  ∧ (date_lt d today = false →
     validate_appointment_date today d = Some d
     ∧ ∀ errors, validate today body = inl errors →
                 "appointment_date" ∉ errors)
  ∧ validate_appointment_date today today = Some today
  ∧ (∀ appointment db' row,
       validate today body = inr appointment →
       create_appointment db appointment = (db', Return row) →
       create_new_appointment today db body = (db', Respond row))
  ∧ (∀ (appointment : AppointmentRequest) (new_status : AppointmentStatus),
       let row := new_appointment "APT0001" appointment in
       create_appointment [] appointment = ([row], Return row)
       ∧ update_appointment_status [row] "APT0001" new_status
         = ([set_status row (value new_status)],
            Return (set_status row (value new_status))))
  ∧ (∀ (later : date) (table : Store) (i : nat) (a : Appointment)
       (new_status : AppointmentStatus),
       table !! i = Some a →
       NoDup (Models.appointment_id <$> table) →
       date_lt (Models.appointment_date a) later = true →
       ∃ errors,
         update_status later table (Models.appointment_id a) new_status
         = (<[i := set_status a (value new_status)]> table,
            ResponseValidationError errors)
         ∧ "appointment_date" ∈ errors)
  ∧ (let row := booking "APT0001" "DOC0001" monday (hm 9 0) (hm 10 0) in
     create_new_appointment monday []
       (body_for "DOC0001" monday (hm 9 0) (hm 10 0))
     = ([row "SCHEDULED"], Respond (row "SCHEDULED"))
     ∧ update_status_request monday [row "SCHEDULED"] "APT0001" (Some "COMPLETED")
       = ([row "COMPLETED"], Respond (row "COMPLETED"))
     ∧ update_status_request (mk_date 2030 1 8) [row "SCHEDULED"] "APT0001"
         (Some "COMPLETED")
       = ([row "COMPLETED"], ResponseValidationError ["appointment_date"])
     ∧ get_appointment [row "COMPLETED"] "APT0001" = Done (row "COMPLETED")).
Proof.
  intros Hd.
  assert (Hchk : (raw_appointment_date body ≫= validate_appointment_date today)
                 = validate_appointment_date today d) by (by rewrite Hd).
  split_and!.
  - intros Hlt.
    assert (Hval : validate_appointment_date today d = None)
      by (unfold validate_appointment_date; by rewrite Hlt).
    split; [done|]. rewrite Hval in Hchk.
    destruct (validate_fails_date today body Hchk) as [errors Hv].
    exists errors. split; [done|]. split.
    + by apply (validate_reports _ _ _ Hv).
    + unfold create_new_appointment. by rewrite Hv.
  - intros Hlt.
    assert (Hval : validate_appointment_date today d = Some d)
      by (unfold validate_appointment_date; by rewrite Hlt).
    split; [done|]. rewrite Hval in Hchk.
    intros errors Hv Hin. apply (validate_reports _ _ _ Hv) in Hin.
    rewrite Hchk in Hin. discriminate.
  - unfold validate_appointment_date. by rewrite date_lt_irrefl.
  - intros appointment db' row. apply create_new_appointment_Respond.
  - intros appointment new_status. split; reflexivity.
  - intros later table i a new_status Hi Hnd Hpast.
    exists (validate_response later (set_status a (value new_status))).
    unfold update_status.
    rewrite (update_appointment_status_unique table i a new_status Hi Hnd).
    by apply serialize_response_past.
  - cbv zeta. split_and!; reflexivity.
Qed.

Lemma past_date_rejected_witness :
  raw_appointment_date
    (body_for "DOC0001" (mk_date 2029 12 31) (hm 9 0) (hm 10 0))
  = Some (mk_date 2029 12 31)
  ∧ date_lt (mk_date 2029 12 31) monday = true
  ∧ ∃ errors,
      validate monday
        (body_for "DOC0001" (mk_date 2029 12 31) (hm 9 0) (hm 10 0))
      = inl errors
      ∧ "appointment_date" ∈ errors
      ∧ create_new_appointment monday []
          (body_for "DOC0001" (mk_date 2029 12 31) (hm 9 0) (hm 10 0))
        = ([], RequestValidationError errors).
Proof.
  split; [reflexivity|]. split; [reflexivity|].
  destruct (past_date_rejected monday []
              (body_for "DOC0001" (mk_date 2029 12 31) (hm 9 0) (hm 10 0))
              (mk_date 2029 12 31) eq_refl) as (Hpast & _).
  apply Hpast. reflexivity.
Defined.

(** ** Creation *)

Section Creation.

Lemma add_commit_Done db row db' :
  add_commit db row = Done db'
  ↔ (Models.appointment_id row ∉ (Models.appointment_id <$> db))
    ∧ db' = db ++ [row].
Proof.
  unfold add_commit. rewrite list_elem_of_fmap. case_bool_decide as Hex.
  - split; [discriminate|]. intros [Hnot _]. destruct Hnot.
    apply Exists_exists in Hex as (a & Ha & Hid). eauto.
  - split.
    + intros [= <-]. split; [|done]. intros (a & Hid & Ha).
      apply Hex, Exists_exists. eauto.
    + by intros [_ ->].
Qed.

Lemma add_commit_fresh db row :
  Models.appointment_id row ∉ (Models.appointment_id <$> db) →
  add_commit db row = Done (db ++ [row]).
Proof. intros. by apply add_commit_Done. Qed.

Lemma add_commit_taken db row :
  Models.appointment_id row ∈ (Models.appointment_id <$> db) →
  add_commit db row = Throw OtherExc.
Proof.
  intros Hin. destruct (add_commit db row) as [db'|[e|]] eqn:Hadd.
  - by apply add_commit_Done in Hadd as [? _].
  - unfold add_commit in Hadd. by case_bool_decide.
  - done.
Qed.

Lemma conflict_query_Some appointment db :
  is_Some (list_find (λ a, conflicting appointment a) db)
  ↔ ∃ a, a ∈ db ∧ overlaps appointment a.
Proof.
  assert (Hiff : ∀ a, conflicting appointment a ↔ overlaps appointment a).
  { intros a. unfold conflicting, overlaps.
    rewrite !andb_True, !bool_decide_spec, !Is_true_true. simpl. tauto. }
  split.
  - intros [[i a] (Hi & Ha & _)%list_find_Some].
    exists a. split; [by eapply list_elem_of_lookup_2 | by apply Hiff].
  - intros (a & Ha & Hov). eapply list_find_elem_of; [done | by apply Hiff].
Qed.

(** The three ways out of [create_appointment] once the id step went
    through. *)
Lemma create_appointment_cases db appointment n :
  next_id db = Done n →
  let row := new_appointment (format_appointment_id n) appointment in
  ((∃ a, a ∈ db ∧ overlaps appointment a)
   ∧ create_appointment db appointment = (db, Raise scheduling_conflict))
  ∨ ((¬ ∃ a, a ∈ db ∧ overlaps appointment a)
     ∧ format_appointment_id n ∈ (Models.appointment_id <$> db)
     ∧ create_appointment db appointment = (db, Raise internal_server_error))
  ∨ ((¬ ∃ a, a ∈ db ∧ overlaps appointment a)
     ∧ (format_appointment_id n ∉ (Models.appointment_id <$> db))
     ∧ create_appointment db appointment = (db ++ [row], Return row)).
Proof.
  intros Hn row. unfold create_appointment, create_appointment_body.
  rewrite Hn. cbn [mbind outcome_bind]. fold row.
  destruct (list_find _ db) as [found|] eqn:Hfind.
  - left. split; [|done]. apply conflict_query_Some. by rewrite Hfind.
  - right.
    assert (Hno : ¬ ∃ a, a ∈ db ∧ overlaps appointment a).
    { intros Hex%conflict_query_Some. rewrite Hfind in Hex.
      by destruct Hex. }
    destruct (decide (format_appointment_id n ∈ (Models.appointment_id <$> db)))
      as [Hin|Hnot].
    + left. by rewrite (add_commit_taken db row Hin).
    + right. by rewrite (add_commit_fresh db row Hnot).
Qed.

Lemma create_appointment_id_failure db appointment :
  next_id db = Throw OtherExc →
  create_appointment db appointment = (db, Raise internal_server_error).
Proof.
  intros Hn. unfold create_appointment, create_appointment_body.
  by rewrite Hn.
Qed.

Lemma next_id_outcome db : (∃ n, next_id db = Done n) ∨ next_id db = Throw OtherExc.
Proof.
  unfold next_id. destruct (last_appointment db); [|eauto].
  destruct (Py.int _); eauto.
Qed.

(** The table after [create_appointment]: unchanged, or one more row. *)
Lemma create_appointment_store db appointment :
  (create_appointment db appointment).1 = db
  ∨ ∃ n, next_id db = Done n
         ∧ (format_appointment_id n ∉ (Models.appointment_id <$> db))
         ∧ (create_appointment db appointment).1
           = db ++ [new_appointment (format_appointment_id n) appointment].
Proof.
  destruct (next_id_outcome db) as [[n Hn]|Hn].
  - destruct (create_appointment_cases db appointment n Hn)
      as [[_ ->]|[(_ & _ & ->)|(_ & Hnot & ->)]]; eauto.
  - rewrite (create_appointment_id_failure _ _ Hn). by left.
Qed.

End Creation.

(** ** Statuses in reachable tables *)

Section Statuses.

Lemma count_valid db :
  Forall valid_status db →
  (get_appointments_count_by_status db SCHEDULED
   + get_appointments_count_by_status db COMPLETED
   + get_appointments_count_by_status db CANCELLED
   + get_appointments_count_by_status db PENDING)%nat
  = length db.
Proof.
  unfold get_appointments_count_by_status.
  induction 1 as [|a db [st Hst] _ IH]; [done|].
  rewrite !filter_cons, Hst.
  destruct st; cbn [value] in *; repeat case_decide; try done; simpl; lia.
Qed.

Lemma reachable_valid_status db : reachable db → Forall valid_status db.
Proof.
  induction 1 as [|db appointment _ IH|db appointment_id new_status _ IH].
  - constructor.
  - destruct (create_appointment_store db appointment)
      as [->|(n & _ & _ & ->)]; [done|].
    apply Forall_app. split; [done|].
    apply Forall_singleton. by exists SCHEDULED.
  - destruct (update_appointment_status_store db appointment_id new_status)
      as [->|(i & a & _ & ->)]; [done|].
    apply Forall_insert; [done|]. by exists new_status.
Qed.

End Statuses.

(** C9.  In every table reachable by creations and status updates each row's
    status is one of SCHEDULED, COMPLETED, CANCELLED, PENDING: a creation
    writes SCHEDULED and an update writes one of the four.  Hence the four
    counts by status add up to the number of rows. *)
Theorem reachable_statuses_partition (db : Store) :
  reachable db →
  (∀ a, a ∈ db →
        status a = "SCHEDULED" ∨ status a = "COMPLETED"
        ∨ status a = "CANCELLED" ∨ status a = "PENDING")
  ∧ (get_appointments_count_by_status db SCHEDULED
     + get_appointments_count_by_status db COMPLETED
     + get_appointments_count_by_status db CANCELLED
     + get_appointments_count_by_status db PENDING)%nat
    = length db
  ∧ (∀ appointment db' row,
       create_appointment db appointment = (db', Return row) →
       status row = "SCHEDULED")
  ∧ (∀ appointment_id new_status db' row,
       update_appointment_status db appointment_id new_status = (db', Return row) →
       status row = value new_status).
Proof.
  intros Hreach. pose proof (reachable_valid_status db Hreach) as Hvalid.
  split_and!.
  - intros a Ha. rewrite Forall_forall in Hvalid.
    destruct (Hvalid a Ha) as [[] ->]; simpl; tauto.
  - by apply count_valid.
  - intros appointment db' row Hc.
    destruct (next_id_outcome db) as [[n Hn]|Hn].
    + destruct (create_appointment_cases db appointment n Hn)
        as [[_ Heq]|[(_ & _ & Heq)|(_ & _ & Heq)]];
        rewrite Heq in Hc; by inversion Hc.
    + rewrite (create_appointment_id_failure _ _ Hn) in Hc. by inversion Hc.
  - intros appointment_id new_status db' row.
    unfold update_appointment_status, update_appointment_status_body.
    destruct (get_appointment_by_id db appointment_id) as [[i a]|]; simpl;
      intros Hu; by inversion Hu.
Qed.

Lemma reachable_statuses_partition_witness :
  reachable [booking "APT0001" "DOC0001" monday (hm 9 0) (hm 10 0) "SCHEDULED"]
  ∧ (get_appointments_count_by_status
       [booking "APT0001" "DOC0001" monday (hm 9 0) (hm 10 0) "SCHEDULED"]
       SCHEDULED
     + get_appointments_count_by_status
         [booking "APT0001" "DOC0001" monday (hm 9 0) (hm 10 0) "SCHEDULED"]
         COMPLETED
     + get_appointments_count_by_status
         [booking "APT0001" "DOC0001" monday (hm 9 0) (hm 10 0) "SCHEDULED"]
         CANCELLED
     + get_appointments_count_by_status
         [booking "APT0001" "DOC0001" monday (hm 9 0) (hm 10 0) "SCHEDULED"]
         PENDING)%nat
    = 1%nat.
Proof.
  assert (Hreach : reachable
            [booking "APT0001" "DOC0001" monday (hm 9 0) (hm 10 0) "SCHEDULED"])
    by exact (reachable_create []
                (request_for "DOC0001" monday (hm 9 0) (hm 10 0))
                reachable_empty).
  split; [exact Hreach|].
  apply (reachable_statuses_partition _ Hreach).
Defined.

(** ** Id generation *)

Section Ids.

Lemma digit_char_facts d :
  0 ≤ d ≤ 9 →
  digit_of (digit_char d) = Some d
  ∧ is_space (digit_char d) = false
  ∧ Ascii.eqb (digit_char d) "+" = false
  ∧ Ascii.eqb (digit_char d) "-" = false.
Proof.
  intros Hd.
  assert (Hc : d = 0 ∨ d = 1 ∨ d = 2 ∨ d = 3 ∨ d = 4 ∨ d = 5 ∨ d = 6
               ∨ d = 7 ∨ d = 8 ∨ d = 9) by lia.
  repeat destruct Hc as [->|Hc]; try subst d; done.
Qed.

Lemma digit_char_compare a b :
  0 ≤ a ≤ 9 → 0 ≤ b ≤ 9 →
  Ascii.compare (digit_char a) (digit_char b) = (a ?= b).
Proof.
  intros Ha Hb. unfold Ascii.compare, digit_char.
  rewrite !N_ascii_embedding by lia.
  rewrite Z2N.inj_compare by lia. apply Z.add_compare_mono_l.
Qed.

Lemma str_digits_small fuel n acc :
  0 ≤ n < 10 → str_digits fuel n acc = String (digit_char (n mod 10)) acc.
Proof.
  intros Hn. destruct fuel; cbn [str_digits]; [done|].
  by rewrite (proj2 (Z.ltb_lt n 10)) by lia.
Qed.

(** Two amounts of fuel that both cover the digits of [n] give the same
    string: the loop ends on its own test. *)
Lemma str_digits_fuel fuel fuel' n acc :
  0 ≤ n < 10 ^ Z.of_nat (S fuel) → n < 10 ^ Z.of_nat (S fuel') →
  str_digits fuel' n acc = str_digits fuel n acc.
Proof.
  revert fuel' n acc. induction fuel as [|fuel IH]; intros fuel' n acc Hn Hn'.
  - change (10 ^ Z.of_nat 1) with 10 in Hn. by rewrite !str_digits_small.
  - destruct fuel' as [|fuel'].
    + change (10 ^ Z.of_nat 1) with 10 in Hn'. by rewrite !str_digits_small by lia.
    + cbn [str_digits]. destruct (n <? 10) eqn:Hlt; [done|].
      apply Z.ltb_ge in Hlt.
      rewrite Nat2Z.inj_succ, Z.pow_succ_r in Hn, Hn' by lia.
      apply IH; (split || idtac);
        try (apply Z.div_pos; lia);
        apply Z.div_lt_upper_bound; lia.
Qed.

Lemma size_nat_bound p : Z.pos p < 2 ^ Z.of_nat (Pos.size_nat p).
Proof.
  induction p as [p IH|p IH|]; cbn [Pos.size_nat];
    rewrite ?Nat2Z.inj_succ, ?Z.pow_succ_r by lia; lia.
Qed.

(** The fuel that [str] gives covers the digits. *)
Lemma str_fuel_covers p : Z.pos p < 10 ^ Z.of_nat (S (Pos.size_nat p)).
Proof.
  pose proof (size_nat_bound p) as Hb.
  assert (2 ^ Z.of_nat (Pos.size_nat p) ≤ 10 ^ Z.of_nat (Pos.size_nat p))
    by (apply Z.pow_le_mono_l; lia).
  rewrite Nat2Z.inj_succ, Z.pow_succ_r by lia. lia.
Qed.

(** More fuel than [str] gives never changes the string. *)
Lemma str_fuel_irrelevant p fuel :
  (Pos.size_nat p ≤ fuel)%nat →
  str_digits fuel (Z.pos p) "" = Py.str (Z.pos p).
Proof.
  intros Hfuel. unfold Py.str. apply str_digits_fuel.
  - split; [lia | apply str_fuel_covers].
  - pose proof (str_fuel_covers p) as Hc.
    assert (10 ^ Z.of_nat (S (Pos.size_nat p)) ≤ 10 ^ Z.of_nat (S fuel))
      by (apply Z.pow_le_mono_r; lia).
    lia.
Qed.

(** Below ten thousand, [str] followed by [zfill(4)] writes the four
    digits. *)
Lemma zfill_str_four_digits k :
  1 ≤ k ≤ 9999 → zfill 4 (Py.str k) = four_digits k.
Proof.
  intros Hk. destruct k as [|p|p]; [lia| |lia].
  unfold Py.str.
  rewrite (str_digits_fuel 3 (Pos.size_nat p))
    by (try apply str_fuel_covers; change (10 ^ Z.of_nat 4) with 10000; lia).
  set (k := Z.pos p) in *. cbn [str_digits].
  assert (Hd0 : 0 ≤ k mod 10 ≤ 9) by (Z.to_euclidean_division_equations; lia).
  assert (Hd1 : 0 ≤ k / 10 mod 10 ≤ 9)
    by (Z.to_euclidean_division_equations; lia).
  assert (Hd2 : 0 ≤ k / 10 / 10 mod 10 ≤ 9)
    by (Z.to_euclidean_division_equations; lia).
  assert (Hd3 : 0 ≤ k / 10 / 10 / 10 mod 10 ≤ 9)
    by (Z.to_euclidean_division_equations; lia).
  destruct (digit_char_facts _ Hd0) as (_ & _ & Hp0 & Hm0).
  destruct (digit_char_facts _ Hd1) as (_ & _ & Hp1 & Hm1).
  destruct (digit_char_facts _ Hd2) as (_ & _ & Hp2 & Hm2).
  destruct (digit_char_facts _ Hd3) as (_ & _ & Hp3 & Hm3).
  unfold four_digits.
  replace (k / 100 mod 10) with (k / 10 / 10 mod 10)
    by (Z.to_euclidean_division_equations; lia).
  destruct (Z.ltb_spec k 10) as [H1|H1];
    [|destruct (Z.ltb_spec (k / 10) 10) as [H2|H2];
      [|destruct (Z.ltb_spec (k / 10 / 10) 10) as [H3|H3]]];
    unfold zfill; cbn [String.length Nat.leb Nat.sub zeros];
    rewrite ?Hp0, ?Hm0, ?Hp1, ?Hm1, ?Hp2, ?Hm2, ?Hp3, ?Hm3;
    cbn [orb String.append].
  - replace (k / 1000) with 0 by (Z.to_euclidean_division_equations; lia).
    replace (k / 10 / 10 mod 10) with 0
      by (Z.to_euclidean_division_equations; lia).
    replace (k / 10 mod 10) with 0 by (Z.to_euclidean_division_equations; lia).
    reflexivity.
  - replace (k / 1000) with 0 by (Z.to_euclidean_division_equations; lia).
    replace (k / 10 / 10 mod 10) with 0
      by (Z.to_euclidean_division_equations; lia).
    reflexivity.
  - replace (k / 1000) with 0 by (Z.to_euclidean_division_equations; lia).
    reflexivity.
  - replace (k / 1000) with (k / 10 / 10 / 10 mod 10)
      by (Z.to_euclidean_division_equations; lia).
    reflexivity.
Qed.

Lemma format_appointment_id_four_digits k :
  1 ≤ k ≤ 9999 → format_appointment_id k = "APT" +:+ four_digits k.
Proof.
  intros Hk. unfold format_appointment_id. by rewrite zfill_str_four_digits.
Qed.

Lemma four_digits_range k :
  0 ≤ k ≤ 9999 →
  0 ≤ k / 1000 ≤ 9 ∧ 0 ≤ k / 100 mod 10 ≤ 9 ∧ 0 ≤ k / 10 mod 10 ≤ 9
  ∧ 0 ≤ k mod 10 ≤ 9
  ∧ k = 1000 * (k / 1000) + 100 * (k / 100 mod 10) + 10 * (k / 10 mod 10)
        + k mod 10.
Proof. intros Hk. Z.to_euclidean_division_equations. lia. Qed.

(** [int] reads back the number that [format_appointment_id] wrote. *)
Lemma ids_parse k :
  1 ≤ k ≤ 10000 →
  Py.int (slice_from 3 (format_appointment_id k)) = Some k.
Proof.
  intros Hk. destruct (decide (k = 10000)) as [->|Hne]; [reflexivity|].
  rewrite format_appointment_id_four_digits by lia.
  destruct (four_digits_range k) as (H3 & H2 & H1 & H0 & Hsum); [lia|].
  destruct (digit_char_facts _ H3) as (Hv3 & Hs3 & Hp3 & Hm3).
  destruct (digit_char_facts _ H2) as (Hv2 & _).
  destruct (digit_char_facts _ H1) as (Hv1 & _).
  destruct (digit_char_facts _ H0) as (Hv0 & _).
  change (slice_from 3 ("APT" +:+ four_digits k)) with (four_digits k).
  unfold four_digits, Py.int.
  cbn [lstrip]. rewrite Hs3, Hm3, Hp3.
  cbn [int_digits]. rewrite Hv3, Hv2, Hv1, Hv0.
  f_equal. lia.
Qed.

(** Ids of four digits are ordered as their numbers. *)
Lemma ids_order j k :
  1 ≤ j → j < k → k ≤ 9999 →
  String.ltb (format_appointment_id j) (format_appointment_id k) = true.
Proof.
  intros Hj Hjk Hk.
  rewrite !format_appointment_id_four_digits by lia.
  destruct (four_digits_range j) as (Hj3 & Hj2 & Hj1 & Hj0 & Hjs); [lia|].
  destruct (four_digits_range k) as (Hk3 & Hk2 & Hk1 & Hk0 & Hks); [lia|].
  unfold String.ltb.
  change (("APT" +:+ four_digits j ?= "APT" +:+ four_digits k)%string)
    with ((four_digits j ?= four_digits k)%string).
  unfold four_digits. cbn [String.compare].
  rewrite !digit_char_compare by done.
  destruct (Z.compare_spec (j / 1000) (k / 1000)); [|done|lia].
  destruct (Z.compare_spec (j / 100 mod 10) (k / 100 mod 10)); [|done|lia].
  destruct (Z.compare_spec (j / 10 mod 10) (k / 10 mod 10)); [|done|lia].
  destruct (Z.compare_spec (j mod 10) (k mod 10)); [lia|done|lia].
Qed.

Lemma ids_increase k :
  1 ≤ k ≤ 9998 →
  String.ltb (format_appointment_id k) (format_appointment_id (k + 1)) = true.
Proof. intros Hk. apply ids_order; lia. Qed.

Lemma format_appointment_id_inj j k :
  1 ≤ j ≤ 10000 → 1 ≤ k ≤ 10000 →
  format_appointment_id j = format_appointment_id k → j = k.
Proof.
  intros Hj Hk Heq. pose proof (ids_parse j Hj) as Hpj.
  rewrite Heq, (ids_parse k Hk) in Hpj. congruence.
Qed.

Lemma last_appointment_snoc db a :
  last_appointment (db ++ [a]) = later_id (last_appointment db) a.
Proof. unfold last_appointment. by rewrite foldl_snoc. Qed.

(** The order of the query is a total preorder, and the row that
    [last_appointment] returns is a greatest one: what
    [ORDER BY appointment_id DESC] puts first. *)
Lemma string_leb_refl a : String.leb a a = true.
Proof.
  unfold String.leb. induction a as [|c a IH]; [done|].
  cbn [String.compare]. unfold Ascii.compare. by rewrite N.compare_refl.
Qed.

Lemma string_leb_trans a b c :
  String.leb a b = true → String.leb b c = true → String.leb a c = true.
Proof.
  unfold String.leb. revert b c.
  induction a as [|ca a IH]; intros [|cb b] [|cc c]; try done.
  cbn [String.compare]. unfold Ascii.compare.
  destruct (N.compare_spec (N_of_ascii ca) (N_of_ascii cb)) as [Hab|Hab|Hab],
           (N.compare_spec (N_of_ascii cb) (N_of_ascii cc)) as [Hbc|Hbc|Hbc],
           (N.compare_spec (N_of_ascii ca) (N_of_ascii cc)) as [Hac|Hac|Hac];
    try done; try lia.
  apply IH.
Qed.

Lemma string_ltb_leb a b : String.ltb a b = true → String.leb a b = true.
Proof. unfold String.ltb, String.leb. by destruct (String.compare a b). Qed.

Lemma string_not_ltb_leb a b : String.ltb a b = false → String.leb b a = true.
Proof.
  unfold String.ltb, String.leb. rewrite (String.compare_antisym b a).
  by destruct (String.compare a b).
Qed.

Lemma last_appointment_None db : last_appointment db = None ↔ db = [].
Proof.
  split; [|by intros ->].
  destruct db as [|a db _] using rev_ind; [done|].
  rewrite last_appointment_snoc. unfold later_id.
  destruct (last_appointment db) as [b|]; [|done]. by destruct (String.ltb _ _).
Qed.

Lemma last_appointment_greatest db b :
  last_appointment db = Some b →
  b ∈ db
  ∧ ∀ a, a ∈ db →
         String.leb (Models.appointment_id a) (Models.appointment_id b) = true.
Proof.
  revert b. induction db as [|x db IH] using rev_ind; [done|].
  intros b. rewrite last_appointment_snoc. unfold later_id.
  destruct (last_appointment db) as [b0|] eqn:Hlast.
  - destruct (IH b0 eq_refl) as [Hin Hmax].
    destruct (String.ltb _ _) eqn:Hlt; intros [= <-].
    + split; [apply elem_of_app; right; apply list_elem_of_here|].
      intros a [Ha|Ha]%elem_of_app.
      * eapply string_leb_trans; [by apply Hmax | by apply string_ltb_leb].
      * apply list_elem_of_singleton in Ha as ->. apply string_leb_refl.
    + split; [apply elem_of_app; by left|].
      intros a [Ha|Ha]%elem_of_app.
      * by apply Hmax.
      * apply list_elem_of_singleton in Ha as ->. by apply string_not_ltb_leb.
  - apply last_appointment_None in Hlast as ->. intros [= <-].
    split; [apply list_elem_of_here|]. intros a Ha. simpl in Ha.
    apply list_elem_of_singleton in Ha as ->. apply string_leb_refl.
Qed.

Lemma sequential_ids_snoc db a :
  sequential_ids (db ++ [a])
  ↔ sequential_ids db
    ∧ Models.appointment_id a = format_appointment_id (Z.of_nat (length db) + 1).
Proof.
  unfold sequential_ids. rewrite length_app, fmap_app. simpl.
  replace (length db + 1)%nat with (S (length db)) by lia.
  rewrite seqZ_S, fmap_app. simpl.
  replace (1 + Z.of_nat (length db)) with (Z.of_nat (length db) + 1) by lia.
  split.
  - intros Heq. apply app_inj_tail in Heq as [? [= ?]]. done.
  - intros [-> ->]. done.
Qed.

(** Up to 9999 rows the row that the query returns is the newest one. *)
Lemma last_appointment_sequential db :
  sequential_ids db → 1 ≤ Z.of_nat (length db) ≤ 9999 →
  ∃ a, last_appointment db = Some a
       ∧ Models.appointment_id a = format_appointment_id (Z.of_nat (length db)).
Proof.
  induction db as [|a db IH] using rev_ind; [simpl; lia|].
  intros [Hseq Ha]%sequential_ids_snoc Hlen.
  rewrite length_app in Hlen. simpl in Hlen.
  rewrite last_appointment_snoc, length_app. simpl.
  replace (Z.of_nat (length db + 1)) with (Z.of_nat (length db) + 1) by lia.
  destruct (decide (length db = 0%nat)) as [Hz|Hnz].
  - apply length_zero_iff_nil in Hz as ->. simpl. eauto.
  - destruct (IH Hseq) as (b & -> & Hb); [lia|]. simpl.
    rewrite Hb, Ha, ids_increase by lia. eauto.
Qed.

(** With APT9999 and APT10000 both in the table the query returns
    APT9999. *)
Lemma last_appointment_full db :
  sequential_ids db → Z.of_nat (length db) = 10000 →
  ∃ a, last_appointment db = Some a
       ∧ Models.appointment_id a = format_appointment_id 9999.
Proof.
  destruct db as [|a db _] using rev_ind; [done|].
  intros [Hseq Ha]%sequential_ids_snoc Hlen.
  rewrite length_app in Hlen. simpl in Hlen.
  destruct (last_appointment_sequential db Hseq) as (b & Hb & Hid); [lia|].
  rewrite last_appointment_snoc, Hb. simpl.
  rewrite Hid, Ha.
  replace (Z.of_nat (length db)) with 9999 by lia.
  exists b. split; [reflexivity|]. rewrite Hid. f_equal. lia.
Qed.

Lemma next_id_sequential db :
  sequential_ids db → Z.of_nat (length db) ≤ 9999 →
  next_id db = Done (Z.of_nat (length db) + 1).
Proof.
  intros Hseq Hlen. unfold next_id.
  destruct (decide (length db = 0%nat)) as [Hz|Hnz].
  - by apply length_zero_iff_nil in Hz as ->.
  - destruct (last_appointment_sequential db Hseq) as (a & -> & ->); [lia|].
    by rewrite ids_parse by lia.
Qed.

Lemma next_id_full db :
  sequential_ids db → Z.of_nat (length db) = 10000 → next_id db = Done 10000.
Proof.
  intros Hseq Hlen. unfold next_id.
  destruct (last_appointment_full db Hseq Hlen) as (a & -> & ->).
  by rewrite ids_parse by lia.
Qed.

Lemma sequential_ids_elem db id :
  sequential_ids db → Z.of_nat (length db) ≤ 10000 →
  id ∈ (Models.appointment_id <$> db)
  ↔ ∃ k, 1 ≤ k ≤ Z.of_nat (length db) ∧ id = format_appointment_id k.
Proof.
  intros Hseq Hlen. rewrite Hseq, list_elem_of_fmap.
  setoid_rewrite elem_of_seqZ. split; intros (k & ? & ?); exists k; split; (done || lia).
Qed.

Lemma sequential_ids_fresh db :
  sequential_ids db → Z.of_nat (length db) ≤ 9999 →
  format_appointment_id (Z.of_nat (length db) + 1)
  ∉ (Models.appointment_id <$> db).
Proof.
  intros Hseq Hlen [k [Hk Heq]]%sequential_ids_elem; [|done|lia].
  apply format_appointment_id_inj in Heq; lia.
Qed.

Lemma sequential_ids_NoDup db :
  sequential_ids db → Z.of_nat (length db) ≤ 10000 →
  NoDup (Models.appointment_id <$> db).
Proof.
  intros Hseq Hlen. rewrite Hseq. apply NoDup_fmap_2_strong; [|apply NoDup_seqZ].
  intros j k Hj%elem_of_seqZ Hk%elem_of_seqZ.
  apply format_appointment_id_inj; lia.
Qed.

(** Creations and status updates keep the ids sequential, and never bring
    the table beyond ten thousand rows. *)
Lemma reachable_sequential db :
  reachable db → sequential_ids db ∧ Z.of_nat (length db) ≤ 10000.
Proof.
  induction 1 as [|db appointment _ [Hseq Hlen]
                  |db appointment_id new_status _ [Hseq Hlen]].
  - split; [done | simpl; lia].
  - destruct (create_appointment_store db appointment)
      as [->|(n & Hn & Hfresh & ->)]; [done|].
    destruct (decide (Z.of_nat (length db) = 10000)) as [Hfull|Hroom].
    + rewrite (next_id_full db Hseq Hfull) in Hn. injection Hn as <-.
      destruct Hfresh. apply sequential_ids_elem; [done..|].
      exists 10000. split; [lia | done].
    + rewrite next_id_sequential in Hn by (done || lia). injection Hn as <-.
      split; [by apply sequential_ids_snoc | rewrite length_app; simpl; lia].
  - destruct (update_appointment_status_store db appointment_id new_status)
      as [->|(i & a & Hi & ->)]; [done|].
    rewrite length_insert. split; [|done].
    unfold sequential_ids. rewrite list_fmap_insert, length_insert, set_status_id.
    rewrite list_insert_id; [done|]. by rewrite list_lookup_fmap, Hi.
Qed.

Lemma reachable_id_generation db : reachable db → id_generation_succeeds db.
Proof.
  intros [Hseq Hlen]%reachable_sequential. unfold id_generation_succeeds.
  destruct (decide (Z.of_nat (length db) = 10000)) as [Hfull|Hroom].
  - rewrite next_id_full by done. eauto.
  - rewrite next_id_sequential by (done || lia). eauto.
Qed.

Lemma reachable_unique_ids db :
  reachable db → NoDup (Models.appointment_id <$> db).
Proof. intros [??]%reachable_sequential. by apply sequential_ids_NoDup. Qed.

End Ids.

(** ** Creation in tables with sequential ids *)

Section SequentialCreation.

(** Below ten thousand rows a creation without conflict appends the row
    with the next id. *)
Lemma create_appointment_room db appointment :
  sequential_ids db → Z.of_nat (length db) ≤ 9999 →
  (¬ ∃ a, a ∈ db ∧ overlaps appointment a) →
  let row :=
    new_appointment (format_appointment_id (Z.of_nat (length db) + 1))
      appointment in
  create_appointment db appointment = (db ++ [row], Return row).
Proof.
  intros Hseq Hlen Hno row.
  pose proof (next_id_sequential db Hseq Hlen) as Hn.
  pose proof (sequential_ids_fresh db Hseq Hlen) as Hfresh.
  destruct (create_appointment_cases db appointment _ Hn)
    as [[? _]|[(_ & ? & _)|(_ & _ & ?)]]; done.
Qed.

(** At ten thousand rows the id step returns 10000 again: a creation
    without conflict fails on the insertion. *)
Lemma create_appointment_full db appointment :
  sequential_ids db → Z.of_nat (length db) = 10000 →
  (¬ ∃ a, a ∈ db ∧ overlaps appointment a) →
  create_appointment db appointment = (db, Raise internal_server_error).
Proof.
  intros Hseq Hlen Hno.
  pose proof (next_id_full db Hseq Hlen) as Hn.
  assert (Hin : format_appointment_id 10000 ∈ (Models.appointment_id <$> db)).
  { apply sequential_ids_elem; [done | lia |]. exists 10000. split; [lia|done]. }
  destruct (create_appointment_cases db appointment _ Hn)
    as [[? _]|[(_ & _ & ?)|(_ & ? & _)]]; done.
Qed.

Lemma cancelled_upto_length n : length (cancelled_upto n) = n.
Proof. unfold cancelled_upto. rewrite length_fmap, length_seqZ. lia. Qed.

Lemma cancelled_upto_S n :
  cancelled_upto (S n) = cancelled_upto n ++ [cancelled_row (Z.of_nat n + 1)].
Proof.
  unfold cancelled_upto. rewrite seqZ_S, fmap_app. simpl.
  by replace (1 + Z.of_nat n) with (Z.of_nat n + 1) by lia.
Qed.

Lemma cancelled_upto_sequential n : sequential_ids (cancelled_upto n).
Proof.
  unfold sequential_ids. rewrite cancelled_upto_length.
  unfold cancelled_upto. by rewrite <- list_fmap_compose.
Qed.

Lemma cancelled_upto_no_overlap n appointment :
  ¬ ∃ a, a ∈ cancelled_upto n ∧ overlaps appointment a.
Proof.
  intros (a & Ha & Hov). unfold cancelled_upto in Ha.
  apply list_elem_of_fmap in Ha as (k & -> & _).
  by destruct Hov as (_ & _ & Hst & _).
Qed.

(** The table of [n] cancelled bookings is what [n] creations, each
    followed by its cancellation, leave. *)
Lemma cancelled_upto_reachable n :
  Z.of_nat n ≤ 10000 → reachable (cancelled_upto n).
Proof.
  induction n as [|n IH]; intros Hn; [constructor|].
  set (db := cancelled_upto n).
  set (req := request_for "DOC0001" monday (hm 9 0) (hm 10 0)).
  set (row := booking (format_appointment_id (Z.of_nat n + 1)) "DOC0001"
                monday (hm 9 0) (hm 10 0) "SCHEDULED").
  assert (Hcreate : create_appointment db req = (db ++ [row], Return row)).
  { rewrite create_appointment_room.
    - unfold row, db. by rewrite cancelled_upto_length.
    - apply cancelled_upto_sequential.
    - unfold db. rewrite cancelled_upto_length. lia.
    - apply cancelled_upto_no_overlap. }
  assert (Hreach : reachable (db ++ [row])).
  { replace (db ++ [row]) with (create_appointment db req).1
      by (by rewrite Hcreate).
    constructor. apply IH. lia. }
  assert (Hupdate :
    update_appointment_status (db ++ [row]) (Models.appointment_id row) CANCELLED
    = (cancelled_upto (S n), Return (set_status row (value CANCELLED)))).
  { rewrite (update_appointment_status_unique _ n row).
    - rewrite cancelled_upto_S. f_equal.
      rewrite insert_app_r_alt by (unfold db; rewrite cancelled_upto_length; lia).
      unfold db. rewrite cancelled_upto_length, Nat.sub_diag. done.
    - rewrite lookup_app_r by (unfold db; rewrite cancelled_upto_length; lia).
      unfold db. by rewrite cancelled_upto_length, Nat.sub_diag.
    - by apply reachable_unique_ids. }
  replace (cancelled_upto (S n))
    with (update_appointment_status (db ++ [row])
            (Models.appointment_id row) CANCELLED).1
    by (by rewrite Hupdate).
  by constructor.
Qed.

Lemma full_store_upto : full_store = cancelled_upto (Z.to_nat 10000).
Proof. unfold full_store, cancelled_upto. by rewrite Z2Nat.id by lia. Qed.

Lemma full_store_reachable : reachable full_store.
Proof. rewrite full_store_upto. apply cancelled_upto_reachable. lia. Qed.

Lemma full_store_sequential : sequential_ids full_store.
Proof. rewrite full_store_upto. apply cancelled_upto_sequential. Qed.

Lemma full_store_length : Z.of_nat (length full_store) = 10000.
Proof. rewrite full_store_upto, cancelled_upto_length. lia. Qed.

End SequentialCreation.

(** ** Conflicts at creation *)

(** C1.  On every table that the service builds, [create_appointment] raises
    the scheduling conflict, a 400 distinct from the generic 500, and leaves
    the table unchanged, exactly when some row has the same doctor and date,
    a status other than CANCELLED, and [existing.start < new.end] and
    [existing.end > new.start].  Requests back to back with the bookings in
    their way are not rejected as conflicts, nor is a request that overlaps
    only CANCELLED rows, which is stored with status SCHEDULED as long as the
    table holds fewer than ten thousand rows.  On the empty table
    09:00-10:00 then 10:00-11:00 both succeed, and so does 09:00-10:00 over a
    cancelled 09:00-10:00.  The last clause of the claim fails at ten
    thousand rows: on the reachable table of ten thousand cancelled bookings
    a request that overlaps only CANCELLED rows does not succeed but gets the
    generic 500, through the id step. *)
Theorem create_conflict_iff (db : Store) (appointment : AppointmentRequest) :
  reachable db →
  ((create_appointment db appointment).2 = Raise scheduling_conflict
   ↔ ∃ a, a ∈ db ∧ overlaps appointment a)
  ∧ ((∃ a, a ∈ db ∧ overlaps appointment a) →
     create_appointment db appointment = (db, Raise scheduling_conflict))
  ∧ (status_code scheduling_conflict = 400
     ∧ status_code internal_server_error = 500)
  ∧ ((∀ a, a ∈ db →
           Models.doctor_id a = Schemas.doctor_id appointment →
           Models.appointment_date a = Schemas.appointment_date appointment →
           status a ≠ "CANCELLED" →
           Models.appointment_end_time a = Schemas.appointment_start_time appointment
           ∨ Schemas.appointment_end_time appointment = Models.appointment_start_time a) →
     (create_appointment db appointment).2 ≠ Raise scheduling_conflict)
  ∧ ((∀ a, a ∈ db →
           Models.doctor_id a = Schemas.doctor_id appointment →
           Models.appointment_date a = Schemas.appointment_date appointment →
           time_lt (Models.appointment_start_time a)
                   (Schemas.appointment_end_time appointment) = true →
           time_gt (Models.appointment_end_time a)
                   (Schemas.appointment_start_time appointment) = true →
           status a = "CANCELLED") →
     (create_appointment db appointment).2 ≠ Raise scheduling_conflict
     ∧ (Z.of_nat (length db) < 10000 →
        let row :=
          new_appointment (format_appointment_id (Z.of_nat (length db) + 1))
            appointment in
        create_appointment db appointment = (db ++ [row], Return row)
        ∧ status row = "SCHEDULED"))
  ∧ (let first := request_for "DOC0001" monday (hm 9 0) (hm 10 0) in
     let second := request_for "DOC0001" monday (hm 10 0) (hm 11 0) in
     let row1 := booking "APT0001" "DOC0001" monday (hm 9 0) (hm 10 0) in
     let row2 := booking "APT0002" "DOC0001" monday (hm 10 0) (hm 11 0) in
     let again := booking "APT0002" "DOC0001" monday (hm 9 0) (hm 10 0) in
     create_appointment [] first = ([row1 "SCHEDULED"], Return (row1 "SCHEDULED"))
     ∧ create_appointment [row1 "SCHEDULED"] second
       = ([row1 "SCHEDULED"; row2 "SCHEDULED"], Return (row2 "SCHEDULED"))
     ∧ create_appointment [row1 "SCHEDULED"] first
       = ([row1 "SCHEDULED"], Raise scheduling_conflict)
     ∧ create_appointment [row1 "CANCELLED"] first
       = ([row1 "CANCELLED"; again "SCHEDULED"], Return (again "SCHEDULED")))
  ∧ (reachable full_store
     ∧ Z.of_nat (length full_store) = 10000
     ∧ (∀ a, a ∈ full_store → status a = "CANCELLED")
     ∧ (∃ a, a ∈ full_store
             ∧ Models.doctor_id a = "DOC0001"
             ∧ Models.appointment_date a = monday
             ∧ time_lt (Models.appointment_start_time a) (hm 10 0) = true
             ∧ time_gt (Models.appointment_end_time a) (hm 9 0) = true)
     ∧ create_appointment full_store
         (request_for "DOC0001" monday (hm 9 0) (hm 10 0))
       = (full_store, Raise internal_server_error)).
Proof.
  intros Hreach.
  destruct (reachable_id_generation db Hreach) as [n Hn].
  assert (Hiff : (create_appointment db appointment).2 = Raise scheduling_conflict
                 ↔ ∃ a, a ∈ db ∧ overlaps appointment a).
  { destruct (create_appointment_cases db appointment n Hn)
      as [[Hex ->]|[(Hno & _ & ->)|(Hno & _ & ->)]]; simpl;
      split; try done; try (intros [=]). }
  split_and!.
  - exact Hiff.
  - intros Hex.
    destruct (create_appointment_cases db appointment n Hn)
      as [[_ ->]|[(Hno & _)|(Hno & _)]]; done.
  - done.
  - done.
  - intros Hback (a & Ha & Hd & Hdt & Hst & Hlt & Hgt)%Hiff.
    destruct (Hback a Ha Hd Hdt Hst) as [Heq|Heq].
    + rewrite Heq, time_gt_irrefl in Hgt. discriminate.
    + rewrite <- Heq, time_lt_irrefl in Hlt. discriminate.
  - intros Hcancelled.
    assert (Hno : ¬ ∃ a, a ∈ db ∧ overlaps appointment a).
    { intros (a & Ha & Hd & Hdt & Hst & Hlt & Hgt). eauto. }
    split; [by rewrite Hiff|].
    intros Hlen row. split; [|done].
    destruct (reachable_sequential db Hreach) as [Hseq _].
    apply create_appointment_room; (done || lia).
  - cbv zeta. split_and!; reflexivity.
  - apply full_store_reachable.
  - apply full_store_length.
  - intros a Ha. unfold full_store in Ha.
    by apply list_elem_of_fmap in Ha as (k & -> & _).
  - exists (cancelled_row 1). split_and!; try reflexivity.
    unfold full_store. apply list_elem_of_fmap. exists 1.
    split; [done|]. apply elem_of_seqZ. lia.
  - apply create_appointment_full.
    + apply full_store_sequential.
    + apply full_store_length.
    + rewrite full_store_upto. apply cancelled_upto_no_overlap.
Qed.

Lemma create_conflict_iff_witness :
  reachable [booking "APT0001" "DOC0001" monday (hm 9 0) (hm 10 0) "SCHEDULED"]
  ∧ (∃ a, a ∈ [booking "APT0001" "DOC0001" monday (hm 9 0) (hm 10 0) "SCHEDULED"]
          ∧ overlaps (request_for "DOC0001" monday (hm 9 30) (hm 10 30)) a)
  ∧ create_appointment
      [booking "APT0001" "DOC0001" monday (hm 9 0) (hm 10 0) "SCHEDULED"]
      (request_for "DOC0001" monday (hm 9 30) (hm 10 30))
    = ([booking "APT0001" "DOC0001" monday (hm 9 0) (hm 10 0) "SCHEDULED"],
       Raise scheduling_conflict).
Proof.
  assert (Hreach : reachable
            [booking "APT0001" "DOC0001" monday (hm 9 0) (hm 10 0) "SCHEDULED"])
    by exact (reachable_create []
                (request_for "DOC0001" monday (hm 9 0) (hm 10 0)) reachable_empty).
  assert (Hex : ∃ a,
            a ∈ [booking "APT0001" "DOC0001" monday (hm 9 0) (hm 10 0) "SCHEDULED"]
            ∧ overlaps (request_for "DOC0001" monday (hm 9 30) (hm 10 30)) a).
  { eexists. split; [apply list_elem_of_here|].
    unfold overlaps. simpl. split_and!; (reflexivity || discriminate). }
  split; [exact Hreach|]. split; [exact Hex|].
  destruct (create_conflict_iff _
              (request_for "DOC0001" monday (hm 9 30) (hm 10 30)) Hreach)
    as (_ & Hraise & _).
  exact (Hraise Hex).
Defined.

(** C3.  The table that ten thousand creations leave, each booking having
    been cancelled afterwards, is reachable and holds the ids APT0001 to
    APT10000.  In the order of the query APT9999 comes last, so the id step
    yields 10000 again, APT10000 is taken, and every creation ends without a
    new row: with the generic 500 when nothing conflicts. *)
Theorem id_generation_stalls :
  reachable full_store
  ∧ sequential_ids full_store
  ∧ Z.of_nat (length full_store) = 10000
  ∧ Models.appointment_id <$> last_appointment full_store = Some "APT9999"
  ∧ next_id full_store = Done 10000
  ∧ format_appointment_id 10000 = "APT10000"
  ∧ "APT10000" ∈ (Models.appointment_id <$> full_store)
  ∧ (∀ appointment, (create_appointment full_store appointment).1 = full_store)
  ∧ (∀ appointment,
       create_appointment full_store appointment
       = (full_store, Raise internal_server_error)).
Proof.
  pose proof full_store_reachable as Hreach.
  pose proof full_store_sequential as Hseq.
  pose proof full_store_length as Hlen.
  assert (Hnone : ∀ appointment,
             ¬ ∃ a, a ∈ full_store ∧ overlaps appointment a).
  { intros appointment. rewrite full_store_upto.
    apply cancelled_upto_no_overlap. }
  split_and!.
  - exact Hreach.
  - exact Hseq.
  - exact Hlen.
  - destruct (last_appointment_full _ Hseq Hlen) as (a & -> & Ha).
    simpl. by rewrite Ha.
  - by apply next_id_full.
  - reflexivity.
  - apply sequential_ids_elem; [done | lia |]. exists 10000. split; [lia|done].
  - intros appointment.
    by rewrite (create_appointment_full _ appointment Hseq Hlen (Hnone _)).
  - intros appointment.
    by apply create_appointment_full.
Qed.

(** ** Creation outside working hours *)

(** C10.  A request for 07:00-08:00 on the current date passes validation and
    is stored in the empty table, although every slot that
    [get_available_time_slots] can return starts at 09:00 or later: no
    offered slot equals or overlaps the stored interval. *)
Theorem creation_ignores_working_hours (today : date) (doctor : string) :
  create_new_appointment today [] (body_for doctor today (hm 7 0) (hm 8 0))
  = ([booking "APT0001" doctor today (hm 7 0) (hm 8 0) "SCHEDULED"],
     Respond (booking "APT0001" doctor today (hm 7 0) (hm 8 0) "SCHEDULED"))
  ∧ ∀ (db : Store) (doctor_id : string) (date : date) (s : TimeSlot),
      s ∈ get_available_time_slots db doctor_id date →
      time_ge (start_time s) (hm 9 0) = true
      ∧ (start_time s, end_time s) ≠ (hm 7 0, hm 8 0)
      ∧ ¬ (time_lt (start_time s) (hm 8 0) = true
           ∧ time_gt (end_time s) (hm 7 0) = true).
Proof.
  split.
  - unfold create_new_appointment, validate, body_for. cbn.
    unfold validate_appointment_date. rewrite date_lt_irrefl. cbn.
    change (create_appointment [] _)
      with ([booking "APT0001" doctor today (hm 7 0) (hm 8 0) "SCHEDULED"],
            Return (booking "APT0001" doctor today (hm 7 0) (hm 8 0) "SCHEDULED")).
    apply serialize_response_Return; [apply date_lt_irrefl | reflexivity].
  - intros db doctor_id date s Hs.
    rewrite available_eq_filter in Hs.
    apply list_elem_of_filter in Hs as [_ Hs].
    assert (Hw : working_hours
                 = [slot 9; slot 10; slot 11; slot 12; slot 13; slot 14;
                    slot 15; slot 16]) by reflexivity.
    rewrite Hw in Hs.
    repeat (apply elem_of_cons in Hs as [->|Hs]);
      try (by apply elem_of_nil in Hs);
      (split_and!; [reflexivity | discriminate | intros [? _]; discriminate]).
Qed.

(** * Further properties of the code *)

(** ** The other guarded endpoints *)

Lemma guard_spec (P Q : Prop) `{Decision P, Decision Q} :
  bool_decide P && bool_decide Q = true ↔ P ∧ Q.
Proof. by rewrite andb_true_iff, !bool_decide_eq_true. Qed.

Lemma guard_spec_false (P Q : Prop) `{Decision P, Decision Q} :
  bool_decide P && bool_decide Q = false ↔ ¬ (P ∧ Q).
Proof.
  split.
  - intros Hb HPQ. apply (guard_spec P Q) in HPQ. congruence.
  - intros Hn. destruct (bool_decide P && bool_decide Q) eqn:Hb; [|done].
    by apply guard_spec in Hb.
Qed.

(** X1.  [get_doctor_appointments] raises its 403 exactly when the caller's
    role is DOCTOR and the caller's name differs from the requested
    [doctor_id]; every other caller receives the rows of that doctor, in the
    order of the table. *)
Theorem doctor_listing_authorization (db : Store) (current_user : User)
    (doctor_id : string) :
  (get_doctor_appointments db current_user doctor_id = Raise forbidden_doctor
   ↔ role current_user = "DOCTOR" ∧ username current_user ≠ doctor_id)
  ∧ (¬ (role current_user = "DOCTOR" ∧ username current_user ≠ doctor_id) →
     get_doctor_appointments db current_user doctor_id
     = Return (filter (λ a, Models.doctor_id a = doctor_id) db))
  ∧ (∀ e, get_doctor_appointments db current_user doctor_id = Raise e →
          e = forbidden_doctor ∧ status_code e = 403).
Proof.
  unfold get_doctor_appointments, get_appointments_by_doctor_id.
  destruct (_ && _) eqn:Hg.
  - apply guard_spec in Hg. split_and!.
    + done.
    + intros Hn. by destruct Hn.
    + by intros e [= <-].
  - apply guard_spec_false in Hg. split_and!.
    + split; [discriminate | done].
    + done.
    + intros e. discriminate.
Qed.

(** X2.  [get_appointment_count_for_doctor] never answers the 403 that its
    guard means to raise: for a DOCTOR asking about another doctor the
    handler fails with an exception that is no [HTTPException] (no count is
    returned), and for every other caller it returns the number of rows with
    that doctor and status. *)
Theorem count_for_doctor_guard (db : Store) (current_user : User)
    (doctor_id : string) (st : AppointmentStatus) :
  (get_appointment_count_for_doctor db current_user doctor_id st = Throw OtherExc
   ↔ role current_user = "DOCTOR" ∧ username current_user ≠ doctor_id)
  ∧ (∀ e, get_appointment_count_for_doctor db current_user doctor_id st
          ≠ Throw (HTTPExc e))
  ∧ (∀ n, get_appointment_count_for_doctor db current_user doctor_id st = Done n →
          n = length (filter (λ a, Models.doctor_id a = doctor_id
                                   ∧ status a = value st) db)
          ∧ ¬ (role current_user = "DOCTOR" ∧ username current_user ≠ doctor_id)).
Proof.
  unfold get_appointment_count_for_doctor,
    get_appointment_count_by_doctor_and_status.
  destruct (_ && _) eqn:Hg.
  - apply guard_spec in Hg. split_and!.
    + done.
    + intros e. discriminate.
    + intros n. discriminate.
  - apply guard_spec_false in Hg. split_and!.
    + split; [discriminate | done].
    + intros e. discriminate.
    + by intros n [= <-].
Qed.

(** X3.  [get_appointment_count_for_patient] behaves alike: a PATIENT asking
    about another patient gets an exception that is no [HTTPException], never
    the 403 and never a count; every other caller gets the number of rows
    with that patient and status. *)
Theorem count_for_patient_guard (db : Store) (current_user : User)
    (patient_id : string) (st : AppointmentStatus) :
  (get_appointment_count_for_patient db current_user patient_id st = Throw OtherExc
   ↔ role current_user = "PATIENT" ∧ username current_user ≠ patient_id)
  ∧ (∀ e, get_appointment_count_for_patient db current_user patient_id st
          ≠ Throw (HTTPExc e))
  ∧ (∀ n, get_appointment_count_for_patient db current_user patient_id st = Done n →
          n = length (filter (λ a, Models.patient_id a = patient_id
                                   ∧ status a = value st) db)
          ∧ ¬ (role current_user = "PATIENT" ∧ username current_user ≠ patient_id)).
Proof.
  unfold get_appointment_count_for_patient,
    get_appointment_count_by_patient_and_status.
  destruct (_ && _) eqn:Hg.
  - apply guard_spec in Hg. split_and!.
    + done.
    + intros e. discriminate.
    + intros n. discriminate.
  - apply guard_spec_false in Hg. split_and!.
    + split; [discriminate | done].
    + intros e. discriminate.
    + by intros n [= <-].
Qed.

(** ** Lookup by id *)

(** X4.  [GET /id/{appointment_id}] answers the 404 exactly when no row has
    the id; otherwise it returns a row of the table that has this id, the
    first one in the table. *)
Theorem lookup_by_id (db : Store) (appointment_id : string) :
  (get_appointment db appointment_id = Throw (HTTPExc not_found)
   ↔ appointment_id ∉ (Models.appointment_id <$> db))
  ∧ (∀ a, get_appointment db appointment_id = Done a →
          Models.appointment_id a = appointment_id
          ∧ ∃ i, db !! i = Some a
                 ∧ ∀ j b, db !! j = Some b →
                          Models.appointment_id b = appointment_id → (i ≤ j)%nat)
  ∧ (∀ x, get_appointment db appointment_id = Throw x → x = HTTPExc not_found).
Proof.
  unfold get_appointment, get_appointment_by_id.
  destruct (list_find _ db) as [[i a]|] eqn:Hfind; simpl.
  - apply list_find_Some in Hfind as (Hi & Ha & Hleast).
    split_and!.
    + split; [discriminate|]. intros Hnot. destruct Hnot.
      apply list_elem_of_fmap. exists a. split; [done|].
      by eapply list_elem_of_lookup_2.
    + intros a' [= <-]. split; [done|]. exists i. split; [done|].
      intros j b Hj Hb. destruct (decide (i ≤ j)%nat) as [|Hlt]; [done|].
      destruct (Hleast j b Hj); [lia | done].
    + discriminate.
  - apply list_find_None in Hfind. rewrite Forall_forall in Hfind.
    split_and!.
    + split; [|done]. intros _ (a & Hid & Ha)%list_elem_of_fmap.
      by apply (Hfind a Ha).
    + discriminate.
    + by intros x [= <-].
Qed.

(** X5.  The members of [AppointmentStatus] and their values correspond one
    to one: looking up the value of a member gives the member back, a string
    is accepted exactly when it is one of the four values (in capitals), and
    a status update whose [status] is refused leaves the table unchanged. *)
Theorem status_value_round_trip :
  (∀ st, AppointmentStatus_of_value (value st) = Some st)
  ∧ (∀ s st, AppointmentStatus_of_value s = Some st ↔ s = value st)
  ∧ (∀ s, AppointmentStatus_of_value s = None
          ↔ s ≠ "SCHEDULED" ∧ s ≠ "COMPLETED" ∧ s ≠ "CANCELLED" ∧ s ≠ "PENDING")
  ∧ AppointmentStatus_of_value "completed" = None
  ∧ (∀ today db appointment_id raw_status,
       validate_status_update raw_status = None →
       update_status_request today db appointment_id raw_status
       = (db, RequestValidationError ["status"]))
  ∧ (∀ today db appointment_id st,
       (update_status_request today db appointment_id (Some (value st))).1
       = (update_appointment_status db appointment_id st).1).
Proof.
  assert (Hspec : ∀ s st, AppointmentStatus_of_value s = Some st ↔ s = value st).
  { intros s st. unfold AppointmentStatus_of_value.
    destruct (String.eqb_spec s "SCHEDULED") as [->|?];
      [|destruct (String.eqb_spec s "COMPLETED") as [->|?];
        [|destruct (String.eqb_spec s "CANCELLED") as [->|?];
          [|destruct (String.eqb_spec s "PENDING") as [->|?]]]];
      destruct st; simpl; split; (congruence || discriminate || done). }
  split_and!.
  - intros st. by apply Hspec.
  - exact Hspec.
  - intros s. unfold AppointmentStatus_of_value.
    destruct (String.eqb_spec s "SCHEDULED") as [->|?];
      [|destruct (String.eqb_spec s "COMPLETED") as [->|?];
        [|destruct (String.eqb_spec s "CANCELLED") as [->|?];
          [|destruct (String.eqb_spec s "PENDING") as [->|?]]]];
      split; try discriminate; try done; intros (?&?&?&?); done.
  - reflexivity.
  - intros today db appointment_id raw_status Hnone.
    unfold update_status_request. by rewrite Hnone.
  - intros today db appointment_id st. unfold update_status_request.
    unfold validate_status_update. simpl.
    rewrite (proj2 (Hspec _ _) eq_refl).
    apply update_status_store.
Qed.

(** ** Writing and reading back *)

Section ReadBack.

Lemma create_appointment_Return db appointment db' row :
  create_appointment db appointment = (db', Return row) →
  db' = db ++ [row]
  ∧ (Models.appointment_id row ∉ (Models.appointment_id <$> db))
  ∧ ∃ n, next_id db = Done n
         ∧ row = new_appointment (format_appointment_id n) appointment.
Proof.
  intros Hc. destruct (next_id_outcome db) as [[n Hn]|Hn].
  - destruct (create_appointment_cases db appointment n Hn)
      as [[_ Heq]|[(_ & _ & Heq)|(_ & Hfresh & Heq)]];
      rewrite Heq in Hc; inversion Hc; subst. eauto.
  - rewrite (create_appointment_id_failure _ _ Hn) in Hc. by inversion Hc.
Qed.

Lemma create_appointment_Raise db appointment db' e :
  create_appointment db appointment = (db', Raise e) → db' = db.
Proof.
  intros Hc. destruct (next_id_outcome db) as [[n Hn]|Hn].
  - destruct (create_appointment_cases db appointment n Hn)
      as [[_ Heq]|[(_ & _ & Heq)|(_ & _ & Heq)]];
      rewrite Heq in Hc; by inversion Hc.
  - rewrite (create_appointment_id_failure _ _ Hn) in Hc. by inversion Hc.
Qed.

Lemma get_appointment_by_id_Done db appointment_id i a :
  get_appointment_by_id db appointment_id = Done (i, a)
  ↔ list_find (λ b, Models.appointment_id b = appointment_id) db = Some (i, a).
Proof.
  unfold get_appointment_by_id.
  destruct (list_find _ db) as [[j b]|]; split; intros H; by inversion H.
Qed.

Lemma update_appointment_status_Return db appointment_id new_status db' row :
  update_appointment_status db appointment_id new_status = (db', Return row) →
  ∃ i a, get_appointment_by_id db appointment_id = Done (i, a)
         ∧ row = set_status a (value new_status)
         ∧ db' = <[i := row]> db.
Proof.
  unfold update_appointment_status, update_appointment_status_body.
  destruct (get_appointment_by_id db appointment_id) as [[i a]|x] eqn:Hg;
    simpl; intros Hu; inversion Hu; subst. eauto.
Qed.

Lemma list_find_insert_same {A} (P : A → Prop) `{∀ x, Decision (P x)}
    (l : list A) i x y :
  list_find P l = Some (i, x) → P y →
  list_find P (<[i:=y]> l) = Some (i, y).
Proof.
  intros (Hi & Hx & Hleast)%list_find_Some Hy.
  apply list_find_Some. split_and!.
  - apply list_lookup_insert_eq. by eapply lookup_lt_Some.
  - done.
  - intros j z Hj Hlt. rewrite list_lookup_insert_ne in Hj by lia. eauto.
Qed.

End ReadBack.

(** X6.  After a successful creation the new id looks up the new row, at the
    end of the table, and every id that was found before is found as
    before; a creation that raises leaves the table as it was. *)
Theorem lookup_after_creation (db db' : Store) (appointment : AppointmentRequest)
    (row : Appointment) :
  create_appointment db appointment = (db', Return row) →
  get_appointment_by_id db' (Models.appointment_id row) = Done (length db, row)
  ∧ get_appointment db' (Models.appointment_id row) = Done row
  ∧ (∀ appointment_id i a,
       get_appointment_by_id db appointment_id = Done (i, a) →
       get_appointment_by_id db' appointment_id = Done (i, a))
  ∧ (∀ appointment_id,
       get_appointment_by_id db appointment_id = Throw (HTTPExc not_found) →
       appointment_id ≠ Models.appointment_id row →
       get_appointment_by_id db' appointment_id = Throw (HTTPExc not_found)).
Proof.
  intros (-> & Hfresh & _)%create_appointment_Return.
  assert (Hfound : get_appointment_by_id (db ++ [row]) (Models.appointment_id row)
                   = Done (length db, row)).
  { apply get_appointment_by_id_Done. rewrite list_find_app_r.
    - simpl. by rewrite decide_True by done.
    - apply list_find_None, Forall_forall. intros a Ha Hid.
      apply Hfresh, list_elem_of_fmap. eauto. }
  split_and!.
  - exact Hfound.
  - unfold get_appointment. by rewrite Hfound.
  - intros appointment_id i a Hg. apply get_appointment_by_id_Done.
    apply list_find_app_l. by apply get_appointment_by_id_Done.
  - intros appointment_id Hmiss Hne. unfold get_appointment_by_id in *.
    destruct (list_find _ db) eqn:Hf; [done|].
    rewrite list_find_app_r by done. simpl.
    by rewrite decide_False by done.
Qed.

Lemma lookup_after_creation_witness :
  create_appointment [] (request_for "DOC0001" monday (hm 9 0) (hm 10 0))
  = ([booking "APT0001" "DOC0001" monday (hm 9 0) (hm 10 0) "SCHEDULED"],
     Return (booking "APT0001" "DOC0001" monday (hm 9 0) (hm 10 0) "SCHEDULED"))
  ∧ get_appointment_by_id
      [booking "APT0001" "DOC0001" monday (hm 9 0) (hm 10 0) "SCHEDULED"]
      "APT0001"
    = Done (0%nat, booking "APT0001" "DOC0001" monday (hm 9 0) (hm 10 0) "SCHEDULED").
Proof.
  split; [reflexivity|].
  destruct (lookup_after_creation []
              [booking "APT0001" "DOC0001" monday (hm 9 0) (hm 10 0) "SCHEDULED"]
              (request_for "DOC0001" monday (hm 9 0) (hm 10 0))
              (booking "APT0001" "DOC0001" monday (hm 9 0) (hm 10 0) "SCHEDULED")
              eq_refl) as (Hfound & _).
  exact Hfound.
Defined.

(** X7.  After a successful status update the id looks up the updated row,
    at the position it had, with the new status; and a second update of the
    same id overwrites the first: the table and the row returned are those
    of the second update alone. *)
Theorem lookup_after_update (db db' : Store) (appointment_id : string)
    (new_status : AppointmentStatus) (row : Appointment) :
  update_appointment_status db appointment_id new_status = (db', Return row) →
  status row = value new_status
  ∧ Models.appointment_id row = appointment_id
  ∧ length db' = length db
  ∧ (∃ i a, get_appointment_by_id db appointment_id = Done (i, a)
            ∧ get_appointment_by_id db' appointment_id = Done (i, row))
  ∧ get_appointment db' appointment_id = Done row
  ∧ (∀ later, update_appointment_status db' appointment_id later
              = update_appointment_status db appointment_id later)
  ∧ update_appointment_status db' appointment_id new_status = (db', Return row).
Proof.
  intros Hu.
  destruct (update_appointment_status_Return _ _ _ _ _ Hu)
    as (i & a & Hg & -> & ->).
  pose proof Hg as Hfind. apply get_appointment_by_id_Done in Hfind.
  pose proof Hfind as (Hi & Hid & _)%list_find_Some.
  assert (Hg' : get_appointment_by_id
                  (<[i := set_status a (value new_status)]> db) appointment_id
                = Done (i, set_status a (value new_status))).
  { apply get_appointment_by_id_Done.
    by apply (list_find_insert_same
                (λ b, Models.appointment_id b = appointment_id) db i a). }
  assert (Hlater : ∀ later,
    update_appointment_status
      (<[i := set_status a (value new_status)]> db) appointment_id later
    = update_appointment_status db appointment_id later).
  { intros later.
    unfold update_appointment_status, update_appointment_status_body.
    rewrite Hg', Hg. simpl. by rewrite list_insert_insert_eq. }
  split_and!.
  - done.
  - done.
  - apply length_insert.
  - eauto.
  - unfold get_appointment. by rewrite Hg'.
  - exact Hlater.
  - by rewrite Hlater.
Qed.

Lemma lookup_after_update_witness :
  update_appointment_status
    [booking "APT0001" "DOC0001" monday (hm 9 0) (hm 10 0) "SCHEDULED"]
    "APT0001" COMPLETED
  = ([booking "APT0001" "DOC0001" monday (hm 9 0) (hm 10 0) "COMPLETED"],
     Return (booking "APT0001" "DOC0001" monday (hm 9 0) (hm 10 0) "COMPLETED"))
  ∧ get_appointment
      [booking "APT0001" "DOC0001" monday (hm 9 0) (hm 10 0) "COMPLETED"]
      "APT0001"
    = Done (booking "APT0001" "DOC0001" monday (hm 9 0) (hm 10 0) "COMPLETED").
Proof.
  split; [reflexivity|].
  destruct (lookup_after_update
              [booking "APT0001" "DOC0001" monday (hm 9 0) (hm 10 0) "SCHEDULED"]
              [booking "APT0001" "DOC0001" monday (hm 9 0) (hm 10 0) "COMPLETED"]
              "APT0001" COMPLETED
              (booking "APT0001" "DOC0001" monday (hm 9 0) (hm 10 0) "COMPLETED")
              eq_refl) as (_ & _ & _ & _ & Hfound & _).
  exact Hfound.
Defined.

(** ** What the writing operations keep *)

Section Kept.

Lemma update_appointment_status_ids db appointment_id new_status :
  Models.appointment_id <$> (update_appointment_status db appointment_id new_status).1
  = Models.appointment_id <$> db.
Proof.
  destruct (update_appointment_status_store db appointment_id new_status)
    as [->|(i & a & Hi & ->)]; [done|].
  rewrite list_fmap_insert, set_status_id.
  apply list_insert_id. by rewrite list_lookup_fmap, Hi.
Qed.

Lemma update_appointment_status_without_status db appointment_id new_status :
  without_status <$> (update_appointment_status db appointment_id new_status).1
  = without_status <$> db.
Proof.
  destruct (update_appointment_status_store db appointment_id new_status)
    as [->|(i & a & Hi & ->)]; [done|].
  rewrite list_fmap_insert.
  apply list_insert_id. by rewrite list_lookup_fmap, Hi.
Qed.

Lemma update_appointment_status_Raise db appointment_id new_status db' e :
  update_appointment_status db appointment_id new_status = (db', Raise e) →
  db' = db.
Proof.
  unfold update_appointment_status, update_appointment_status_body.
  destruct (get_appointment_by_id db appointment_id) as [[i a]|x]; simpl;
    intros Hu; by inversion Hu.
Qed.

Lemma rows_overlap_sym a b : rows_overlap a b → rows_overlap b a.
Proof. unfold rows_overlap. intuition congruence. Qed.

Lemma rows_overlap_new (db : Store) appointment id a :
  rows_overlap a (new_appointment id appointment) → a ∈ db →
  ∃ a, a ∈ db ∧ overlaps appointment a.
Proof.
  intros (Hd & Hdt & Hst & _ & Hlt & Hlt') Ha. exists a. split; [done|].
  unfold overlaps. rewrite time_gt_lt. by split_and!.
Qed.

End Kept.

(** X8.  Creation and status update keep the ids of the table unique: from a
    table without two rows of one id neither operation ever makes one with
    such rows, and a status update leaves the list of ids as it is. *)
Theorem unique_ids_kept (db : Store) :
  NoDup (Models.appointment_id <$> db) →
  (∀ appointment,
     NoDup (Models.appointment_id <$> (create_appointment db appointment).1))
  ∧ (∀ appointment_id new_status,
       NoDup (Models.appointment_id <$>
              (update_appointment_status db appointment_id new_status).1)
       ∧ Models.appointment_id <$>
           (update_appointment_status db appointment_id new_status).1
         = Models.appointment_id <$> db).
Proof.
  intros Hnd. split.
  - intros appointment.
    destruct (create_appointment_store db appointment)
      as [->|(n & _ & Hfresh & ->)]; [done|].
    rewrite fmap_app. apply NoDup_app. split_and!; [done | | apply NoDup_singleton].
    intros id Hid ->%list_elem_of_singleton. done.
  - intros appointment_id new_status.
    by rewrite update_appointment_status_ids.
Qed.

Lemma unique_ids_kept_witness :
  NoDup (Models.appointment_id <$>
         [booking "APT0001" "DOC0001" monday (hm 9 0) (hm 10 0) "SCHEDULED"])
  ∧ NoDup (Models.appointment_id <$>
           (create_appointment
              [booking "APT0001" "DOC0001" monday (hm 9 0) (hm 10 0) "SCHEDULED"]
              (request_for "DOC0001" monday (hm 10 0) (hm 11 0))).1).
Proof.
  assert (Hnd : NoDup (Models.appointment_id <$>
            [booking "APT0001" "DOC0001" monday (hm 9 0) (hm 10 0) "SCHEDULED"])).
  { apply (bool_decide_unpack _). vm_compute. exact I. }
  split; [exact Hnd|].
  destruct (unique_ids_kept _ Hnd) as [Hcreate _]. apply Hcreate.
Defined.

(** X9.  Nothing is ever deleted or rewritten but a status: whatever
    creations and status updates follow, every row of a table stays at its
    position with all its fields except [status], and new rows only come
    after it. *)
Theorem rows_persist (db0 db : Store) :
  reaches db0 db →
  without_status <$> db0 `prefix_of` without_status <$> db
  ∧ (length db0 ≤ length db)%nat
  ∧ (∀ i a, db0 !! i = Some a →
            ∃ a', db !! i = Some a' ∧ without_status a' = without_status a).
Proof.
  intros Hreach.
  assert (Hpre : without_status <$> db0 `prefix_of` without_status <$> db).
  { induction Hreach as [|db appointment _ IH|db appointment_id new_status _ IH].
    - done.
    - destruct (create_appointment_store db appointment)
        as [->|(n & _ & _ & ->)]; [done|].
      rewrite fmap_app. by apply prefix_app_r.
    - by rewrite update_appointment_status_without_status. }
  split_and!.
  - exact Hpre.
  - apply prefix_length in Hpre. by rewrite !length_fmap in Hpre.
  - intros i a Hi.
    assert (Hl : (without_status <$> db) !! i = Some (without_status a)).
    { eapply prefix_lookup_Some; [|exact Hpre].
      by rewrite list_lookup_fmap, Hi. }
    rewrite list_lookup_fmap in Hl.
    destruct (db !! i) as [a'|]; [|done]. exists a'. split; [done|].
    simpl in Hl. congruence.
Qed.

Lemma rows_persist_witness :
  reaches [booking "APT0001" "DOC0001" monday (hm 9 0) (hm 10 0) "SCHEDULED"]
    [booking "APT0001" "DOC0001" monday (hm 9 0) (hm 10 0) "CANCELLED"]
  ∧ (length [booking "APT0001" "DOC0001" monday (hm 9 0) (hm 10 0) "SCHEDULED"]
     ≤ length [booking "APT0001" "DOC0001" monday (hm 9 0) (hm 10 0) "CANCELLED"])%nat.
Proof.
  assert (Hreach : reaches
            [booking "APT0001" "DOC0001" monday (hm 9 0) (hm 10 0) "SCHEDULED"]
            [booking "APT0001" "DOC0001" monday (hm 9 0) (hm 10 0) "CANCELLED"])
    by exact (reaches_update _ _ "APT0001" CANCELLED (reaches_refl _)).
  split; [exact Hreach|].
  destruct (rows_persist _ _ Hreach) as (_ & Hlen & _). exact Hlen.
Defined.

(** X10.  Creation never makes a double booking: if no two rows of a table
    book the same doctor on the same date for overlapping intervals (both
    not cancelled), the same holds after [create_appointment], whatever the
    request and the outcome. *)
Theorem creation_keeps_single_booking (db : Store)
    (appointment : AppointmentRequest) :
  ¬ double_booked db →
  ¬ double_booked (create_appointment db appointment).1.
Proof.
  intros Hsingle.
  destruct (next_id_outcome db) as [[n Hn]|Hn];
    [|by rewrite (create_appointment_id_failure _ _ Hn)].
  destruct (create_appointment_cases db appointment n Hn)
    as [[_ ->]|[(_ & _ & ->)|(Hno & _ & ->)]]; [done..|].
  simpl. intros (i & j & a & b & Hij & Hi & Hj & Hov).
  apply lookup_snoc_Some in Hi as [[Hi Ha]|[Hi <-]];
    apply lookup_snoc_Some in Hj as [[Hj Hb]|[Hj <-]].
  - apply Hsingle. by exists i, j, a, b.
  - apply Hno. eapply rows_overlap_new; [done|].
    by eapply list_elem_of_lookup_2.
  - apply Hno. eapply rows_overlap_new; [by apply rows_overlap_sym|].
    by eapply list_elem_of_lookup_2.
  - lia.
Qed.

Lemma creation_keeps_single_booking_witness :
  ¬ double_booked []
  ∧ ¬ double_booked
        (create_appointment [] (request_for "DOC0001" monday (hm 9 0) (hm 10 0))).1.
Proof.
  assert (Hnone : ¬ double_booked [])
    by (intros (i & j & a & b & _ & Hi & _); discriminate Hi).
  split; [exact Hnone|].
  exact (creation_keeps_single_booking []
           (request_for "DOC0001" monday (hm 9 0) (hm 10 0)) Hnone).
Defined.

(** X11.  A status update makes no double booking as long as it does not
    revive a cancelled row: when the new status is CANCELLED, or no row with
    the id is CANCELLED, a table without double booking stays without. *)
Theorem update_keeps_single_booking (db : Store) (appointment_id : string)
    (new_status : AppointmentStatus) :
  ¬ double_booked db →
  (new_status = CANCELLED
   ∨ ∀ a, a ∈ db → Models.appointment_id a = appointment_id →
          status a ≠ "CANCELLED") →
  ¬ double_booked (update_appointment_status db appointment_id new_status).1.
Proof.
  intros Hsingle Hsafe.
  destruct (update_appointment_status db appointment_id new_status)
    as [db' [row|e]] eqn:Hu; simpl;
    [|by rewrite (update_appointment_status_Raise _ _ _ _ _ Hu)].
  destruct (update_appointment_status_Return _ _ _ _ _ Hu)
    as (i & a & Hg & -> & ->).
  apply get_appointment_by_id_Done, list_find_Some in Hg as (Hi & Hid & _).
  assert (Hlive : ∀ b, rows_overlap (set_status a (value new_status)) b →
                       rows_overlap a b).
  { intros b (Hd & Hdt & Hst & Hstb & Hlt & Hlt').
    destruct Hsafe as [->|Hsafe]; [done|].
    unfold rows_overlap. split_and!; try done.
    apply Hsafe; [by eapply list_elem_of_lookup_2 | done]. }
  intros (i' & j' & a' & b' & Hij & Hi' & Hj' & Hov).
  apply list_lookup_insert_Some in Hi' as [(<- & <- & _)|[Hni Hi']];
    apply list_lookup_insert_Some in Hj' as [(<- & <- & _)|[Hnj Hj']].
  - done.
  - apply Hsingle. exists i, j', a, b'. split_and!; try done. by apply Hlive.
  - apply Hsingle. exists i', i, a', a. split_and!; try done.
    by apply rows_overlap_sym, Hlive, rows_overlap_sym.
  - apply Hsingle. by exists i', j', a', b'.
Qed.

Lemma update_keeps_single_booking_witness :
  ¬ double_booked
      [booking "APT0001" "DOC0001" monday (hm 9 0) (hm 10 0) "SCHEDULED"]
  ∧ ¬ double_booked
        (update_appointment_status
           [booking "APT0001" "DOC0001" monday (hm 9 0) (hm 10 0) "SCHEDULED"]
           "APT0001" CANCELLED).1.
Proof.
  assert (Hone : ¬ double_booked
            [booking "APT0001" "DOC0001" monday (hm 9 0) (hm 10 0) "SCHEDULED"]).
  { intros (i & j & a & b & Hij & Hi & Hj & _).
    apply list_lookup_singleton_Some in Hi as [-> _].
    apply list_lookup_singleton_Some in Hj as [-> _]. done. }
  split; [exact Hone|].
  exact (update_keeps_single_booking _ "APT0001" CANCELLED Hone
           (or_introl eq_refl)).
Defined.

(** ** Slots and conflicts together *)

Section TimeOrder.

Lemma time_lt_before a b : time_lt a b = true ↔ time_before a b.
Proof.
  unfold time_lt, time_cmp, time_before, lex, is_lt.
  destruct (Z.compare_spec (hour a) (hour b));
    destruct (Z.compare_spec (minute a) (minute b));
    destruct (Z.compare_spec (second a) (second b));
    destruct (Z.compare_spec (microsecond a) (microsecond b));
    (split; [first [discriminate | intros _; lia]
            | first [done | intros; exfalso; lia]]).
Qed.

Lemma time_lt_not_before a b : time_lt a b = false ↔ ¬ time_before a b.
Proof.
  rewrite <- time_lt_before. by destruct (time_lt a b).
Qed.

Lemma time_ge_before a b : time_ge a b = true ↔ ¬ time_before a b.
Proof.
  rewrite time_ge_lt, negb_true_iff. apply time_lt_not_before.
Qed.

Lemma time_gt_before a b : time_gt a b = true ↔ time_before b a.
Proof. rewrite time_gt_lt. apply time_lt_before. Qed.

(** [a <= b < c] gives [a < c]. *)
Lemma time_before_le_lt a b c :
  ¬ time_before b a → time_before b c → time_before a c.
Proof. unfold time_before. lia. Qed.

Lemma time_before_trans a b c :
  time_before a b → time_before b c → time_before a c.
Proof. unfold time_before. lia. Qed.

Lemma time_before_irrefl a : ¬ time_before a a.
Proof. unfold time_before. lia. Qed.

Lemma working_hours_one_hour s :
  s ∈ working_hours →
  time_before (start_time s) (end_time s)
  ∧ ¬ time_before (start_time s) (hm 9 0)
  ∧ ¬ time_before (hm 17 0) (end_time s).
Proof.
  assert (Hw : working_hours
               = [slot 9; slot 10; slot 11; slot 12; slot 13; slot 14;
                  slot 15; slot 16]) by reflexivity.
  rewrite Hw. intros Hs.
  repeat (apply elem_of_cons in Hs as [->|Hs]);
    try (by apply elem_of_nil in Hs);
    unfold time_before; simpl; lia.
Qed.

End TimeOrder.

Section SlotsAndConflicts.

(** A slot of the working hours that is not offered has its start inside a
    booking of the doctor on the date. *)
Lemma slot_not_offered (db : Store) doctor_id date s :
  s ∈ working_hours →
  s ∉ get_available_time_slots db doctor_id date →
  ∃ a, a ∈ db ∧ booked_for doctor_id date a
       ∧ within (start_time s) (Models.appointment_start_time a)
                (Models.appointment_end_time a).
Proof.
  intros Hs Hnot. rewrite available_eq_filter, list_elem_of_filter in Hnot.
  assert (Hnf : ¬ free_slot db doctor_id date s) by tauto.
  unfold free_slot in Hnf. apply not_Forall_Exists in Hnf; [|apply _].
  apply Exists_exists in Hnf as (a & Ha & Hna). exists a. split; [done|].
  cbv beta in Hna.
  destruct (decide (booked_for doctor_id date a)) as [Hb|Hb];
    [|destruct Hna; intros Hb'; by destruct Hb].
  split; [done|].
  destruct (decide (within (start_time s) (Models.appointment_start_time a)
                      (Models.appointment_end_time a))) as [Hw|Hw]; [done|].
  destruct Hna. by intros _.
Qed.

(** Slots offered over one table are offered over another whose bookings of
    the doctor on the date all occur in the first. *)
Lemma available_mono (db1 db2 : Store) doctor_id date s :
  (∀ a, a ∈ db2 → booked_for doctor_id date a →
        ∃ a', a' ∈ db1 ∧ booked_for doctor_id date a'
              ∧ Models.appointment_start_time a' = Models.appointment_start_time a
              ∧ Models.appointment_end_time a' = Models.appointment_end_time a) →
  s ∈ get_available_time_slots db1 doctor_id date →
  s ∈ get_available_time_slots db2 doctor_id date.
Proof.
  intros Hsub. rewrite !available_eq_filter, !list_elem_of_filter.
  intros [Hfree Hs]. split; [|done].
  unfold free_slot in *. rewrite Forall_forall in *.
  intros a Ha Hb. destruct (Hsub a Ha Hb) as (a' & Ha' & Hb' & <- & <-).
  by apply Hfree.
Qed.

End SlotsAndConflicts.

(** X12.  A slot of the working hours that [get_available_time_slots] does
    not offer cannot be booked: on a table where the id step goes through,
    the creation of an appointment for exactly that slot, doctor and date is
    rejected as a scheduling conflict and the table is unchanged.  The
    converse fails: with a 09:30-10:30 booking the 09:00-10:00 slot is
    offered, and booking it is rejected. *)
Theorem slot_not_offered_is_refused (db : Store) (s : TimeSlot)
    (appointment : AppointmentRequest) :
  id_generation_succeeds db →
  s ∈ working_hours →
  s ∉ get_available_time_slots db (Schemas.doctor_id appointment)
        (Schemas.appointment_date appointment) →
  Schemas.appointment_start_time appointment = start_time s →
  Schemas.appointment_end_time appointment = end_time s →
  create_appointment db appointment = (db, Raise scheduling_conflict)
  ∧ (slot 9 ∈ get_available_time_slots
                 [booking "APT0001" "DOC0001" monday (hm 9 30) (hm 10 30) "SCHEDULED"]
                 "DOC0001" monday
     ∧ create_appointment
         [booking "APT0001" "DOC0001" monday (hm 9 30) (hm 10 30) "SCHEDULED"]
         (request_for "DOC0001" monday (hm 9 0) (hm 10 0))
       = ([booking "APT0001" "DOC0001" monday (hm 9 30) (hm 10 30) "SCHEDULED"],
          Raise scheduling_conflict)).
Proof.
  intros [n Hn] Hs Hnot Hstart Hend. split.
  - destruct (slot_not_offered _ _ _ _ Hs Hnot)
      as (a & Ha & (Hd & Hdt & Hst) & Hge & Hlt).
    destruct (working_hours_one_hour s Hs) as (Hhour & _).
    apply time_ge_before in Hge. apply time_lt_before in Hlt.
    assert (Hov : ∃ a, a ∈ db ∧ overlaps appointment a).
    { exists a. split; [done|]. unfold overlaps.
      rewrite Hstart, Hend, time_gt_before, !time_lt_before.
      split_and!; try done.
      by apply (time_before_le_lt _ (start_time s)). }
    destruct (create_appointment_cases db appointment n Hn)
      as [[_ Heq]|[(Hno & _)|(Hno & _)]]; done.
  - split; [|reflexivity].
    rewrite available_eq_filter. apply list_elem_of_filter. split.
    + unfold free_slot. apply Forall_singleton. intros _ [Hge _].
      vm_compute in Hge. discriminate Hge.
    + unfold working_hours. simpl. apply list_elem_of_here.
Qed.

Lemma slot_not_offered_is_refused_witness :
  id_generation_succeeds
    [booking "APT0001" "DOC0001" monday (hm 9 0) (hm 10 0) "SCHEDULED"]
  ∧ slot 9 ∈ working_hours
  ∧ (slot 9 ∉ get_available_time_slots
                [booking "APT0001" "DOC0001" monday (hm 9 0) (hm 10 0) "SCHEDULED"]
                "DOC0001" monday)
  ∧ create_appointment
      [booking "APT0001" "DOC0001" monday (hm 9 0) (hm 10 0) "SCHEDULED"]
      (request_for "DOC0001" monday (hm 9 0) (hm 10 0))
    = ([booking "APT0001" "DOC0001" monday (hm 9 0) (hm 10 0) "SCHEDULED"],
       Raise scheduling_conflict).
Proof.
  assert (Hid : id_generation_succeeds
            [booking "APT0001" "DOC0001" monday (hm 9 0) (hm 10 0) "SCHEDULED"])
    by (exists 2; reflexivity).
  assert (Hin : slot 9 ∈ working_hours) by apply list_elem_of_here.
  assert (Hnot : slot 9 ∉ get_available_time_slots
            [booking "APT0001" "DOC0001" monday (hm 9 0) (hm 10 0) "SCHEDULED"]
            "DOC0001" monday).
  { intros Hoff. rewrite available_eq_filter in Hoff.
    apply list_elem_of_filter in Hoff as [Hfree _].
    unfold free_slot in Hfree. rewrite Forall_singleton in Hfree.
    apply Hfree; by split. }
  split; [exact Hid|]. split; [exact Hin|]. split; [exact Hnot|].
  destruct (slot_not_offered_is_refused _ (slot 9)
              (request_for "DOC0001" monday (hm 9 0) (hm 10 0))
              Hid Hin Hnot eq_refl eq_refl) as [Hrefused _].
  exact Hrefused.
Defined.

(** X13.  Bookings only take slots away and cancellations only give them
    back: every slot offered after one more row is stored was offered
    before, every slot offered before a row is set to CANCELLED is offered
    after, and over the empty table all eight slots are offered, each one
    hour long between 09:00 and 17:00. *)
Theorem slots_shrink_with_bookings (db : Store) (doctor_id : string)
    (date : date) (s : TimeSlot) :
  (∀ a, s ∈ get_available_time_slots (db ++ [a]) doctor_id date →
        s ∈ get_available_time_slots db doctor_id date)
  ∧ (∀ appointment,
       s ∈ get_available_time_slots (create_appointment db appointment).1
             doctor_id date →
       s ∈ get_available_time_slots db doctor_id date)
  ∧ (∀ appointment_id,
       s ∈ get_available_time_slots db doctor_id date →
       s ∈ get_available_time_slots
             (update_appointment_status db appointment_id CANCELLED).1
             doctor_id date)
  ∧ get_available_time_slots [] doctor_id date = working_hours
  ∧ (s ∈ get_available_time_slots db doctor_id date →
     time_before (start_time s) (end_time s)
     ∧ ¬ time_before (start_time s) (hm 9 0)
     ∧ ¬ time_before (hm 17 0) (end_time s)).
Proof.
  assert (Hgrow : ∀ a, s ∈ get_available_time_slots (db ++ [a]) doctor_id date →
                       s ∈ get_available_time_slots db doctor_id date).
  { intros a. apply available_mono. intros b Hb Hbooked.
    exists b. split_and!; try done. apply elem_of_app. by left. }
  split_and!.
  - exact Hgrow.
  - intros appointment.
    destruct (create_appointment_store db appointment)
      as [->|(n & _ & _ & ->)]; [done | apply Hgrow].
  - intros appointment_id. apply available_mono. intros b Hb Hbooked.
    destruct (update_appointment_status_store db appointment_id CANCELLED)
      as [Heq|(i & a & Hi & Heq)]; rewrite Heq in Hb.
    + exists b. by split_and!.
    + apply list_elem_of_lookup in Hb as [j Hj].
      apply list_lookup_insert_Some in Hj as [(<- & <- & _)|[Hne Hj]].
      * by destruct Hbooked as (_ & _ & Hst).
      * exists b. split_and!; try done. by eapply list_elem_of_lookup_2.
  - reflexivity.
  - rewrite available_eq_filter, list_elem_of_filter. intros [_ Hs].
    by apply working_hours_one_hour.
Qed.

Section Intervals.

Lemma intervals_meet s1 e1 s2 e2 :
  time_before s1 e1 → time_before s2 e2 →
  (time_before s1 e2 ∧ time_before s2 e1
   ↔ ∃ t, (¬ time_before t s1 ∧ time_before t e1)
          ∧ (¬ time_before t s2 ∧ time_before t e2)).
Proof.
  intros H1 H2. split.
  - intros [H12 H21]. destruct (time_lt s1 s2) eqn:Hlt.
    + apply time_lt_before in Hlt. exists s2.
      unfold time_before in *. lia.
    + apply time_lt_not_before in Hlt. exists s1.
      unfold time_before in *. lia.
  - intros (t & [Ha Hb] & [Hc Hd]). split.
    + by apply (time_before_le_lt _ t).
    + by apply (time_before_le_lt _ t).
Qed.

End Intervals.

(** X14.  The conflict test is the test that two intervals share an instant:
    for a row and a request whose end is after their start, the row stands in
    the way of the request exactly when doctor and date agree, the row is not
    cancelled, and some time lies both in [[row.start, row.end)] and in
    [[request.start, request.end)]. *)
Theorem conflict_is_shared_instant (appointment : AppointmentRequest)
    (a : Appointment) :
  time_lt (Models.appointment_start_time a) (Models.appointment_end_time a) = true →
  time_lt (Schemas.appointment_start_time appointment)
          (Schemas.appointment_end_time appointment) = true →
  (conflicting appointment a = true ↔ overlaps appointment a)
  ∧ (overlaps appointment a
     ↔ Models.doctor_id a = Schemas.doctor_id appointment
       ∧ Models.appointment_date a = Schemas.appointment_date appointment
       ∧ status a ≠ "CANCELLED"
       ∧ ∃ t, within t (Models.appointment_start_time a)
                       (Models.appointment_end_time a)
              ∧ within t (Schemas.appointment_start_time appointment)
                         (Schemas.appointment_end_time appointment)).
Proof.
  intros Ha%time_lt_before Hr%time_lt_before. split.
  - unfold conflicting, overlaps.
    rewrite !andb_true_iff, !bool_decide_eq_true. simpl. tauto.
  - unfold overlaps, within.
    rewrite time_gt_before, time_lt_before.
    setoid_rewrite time_ge_before. setoid_rewrite time_lt_before.
    rewrite <- (intervals_meet _ _ _ _ Ha Hr). tauto.
Qed.

Lemma conflict_is_shared_instant_witness :
  time_lt (hm 9 0) (hm 10 0) = true
  ∧ time_lt (hm 9 30) (hm 10 30) = true
  ∧ (overlaps (request_for "DOC0001" monday (hm 9 30) (hm 10 30))
       (booking "APT0001" "DOC0001" monday (hm 9 0) (hm 10 0) "SCHEDULED")
     ↔ "DOC0001" = "DOC0001" ∧ monday = monday ∧ "SCHEDULED" ≠ "CANCELLED"
       ∧ ∃ t, within t (hm 9 0) (hm 10 0) ∧ within t (hm 9 30) (hm 10 30)).
Proof.
  split; [reflexivity|]. split; [reflexivity|].
  destruct (conflict_is_shared_instant
              (request_for "DOC0001" monday (hm 9 30) (hm 10 30))
              (booking "APT0001" "DOC0001" monday (hm 9 0) (hm 10 0) "SCHEDULED")
              eq_refl eq_refl) as [_ Hiff].
  exact Hiff.
Defined.

(** X15.  Validation accepts a body exactly when every required field is
    present and the constraints of the model hold: both names of 2 to 100
    characters, a date not before the current date, an end time after the
    start time, a purpose of 2 to 255 characters and a description, when
    there is one, of at most 500 characters; the request it returns carries
    the fields of the body unchanged.  When it refuses, at least one field
    is reported, the handler does not run and the table is unchanged.  The
    bounds count characters, not bytes: a name that is the single letter
    e-acute (two bytes) is refused as too short, and a name of sixty such
    letters (one hundred and twenty bytes) is accepted. *)
Theorem validate_accepts_exactly (today : date) (body : RawRequest)
    (appointment : AppointmentRequest) :
  (validate today body = inr appointment
   ↔ body = body_of appointment ∧ request_constraints today appointment)
  ∧ (∀ errors, validate today body = inl errors →
               errors ≠ []
               ∧ ∀ db, create_new_appointment today db body
                       = (db, RequestValidationError errors))
  ∧ (String.length e_acute = 2%nat ∧ len e_acute = 1%nat
     ∧ validate monday (body_named e_acute) = inl ["doctor_name"]
     ∧ String.length (copies 60 e_acute) = 120%nat
     ∧ len (copies 60 e_acute) = 60%nat
     ∧ ∃ accepted, validate monday (body_named (copies 60 e_acute)) = inr accepted
                   ∧ Schemas.doctor_name accepted = copies 60 e_acute).
Proof.
  split_and!.
  - apply validate_inr_constraints.
  - intros errors Hv. split.
    + intros ->. revert Hv. unfold validate. cbv zeta.
      destruct (required_str 0 None (raw_doctor_id body));
        [|simpl; by intros [=]].
      destruct (required_str 0 None (raw_patient_id body));
        [|simpl; by intros [=]].
      destruct (required_str 0 None (raw_facility_id body));
        [|simpl; by intros [=]].
      destruct (required_str 2 (Some 100%nat) (raw_doctor_name body));
        [|simpl; by intros [=]].
      destruct (required_str 2 (Some 100%nat) (raw_patient_name body));
        [|simpl; by intros [=]].
      destruct (raw_appointment_date body ≫= validate_appointment_date today);
        [|simpl; by intros [=]].
      destruct (raw_appointment_start_time body); [|simpl; by intros [=]].
      destruct (raw_appointment_end_time body ≫= _); [|simpl; by intros [=]].
      destruct (required_str 2 (Some 255%nat) (raw_purpose_of_visit body));
        [|simpl; by intros [=]].
      destruct (optional_str 500 (raw_description body));
        [|simpl; by intros [=]].
      simpl. by intros [=].
    + intros db. unfold create_new_appointment. by rewrite Hv.
  - reflexivity.
  - reflexivity.
  - reflexivity.
  - reflexivity.
  - reflexivity.
  - eexists. split; reflexivity.
Qed.

(** ** Tables built through the endpoints *)

Section Served.







End Served.



(** X17.  The status update checks no conflict, so the endpoints can build a
    double booking: for every request that validation accepts, posting it,
    cancelling the row, posting it again and then setting the first row to
    any status but CANCELLED leaves two rows that are not cancelled and book
    the same doctor on the same date for the same interval.  Until that
    last update the table had no double booking. *)
Theorem revived_row_double_books (today : date)
    (appointment : AppointmentRequest) (new_status : AppointmentStatus) :
  request_constraints today appointment →
  new_status ≠ CANCELLED →
  let body := body_of appointment in
  let db1 := (create_new_appointment today [] body).1 in
  let db2 := (update_status_request today db1 "APT0001" (Some "CANCELLED")).1 in
  let db3 := (create_new_appointment today db2 body).1 in
  let db4 :=
    (update_status_request today db3 "APT0001" (Some (value new_status))).1 in
  db3 = [set_status (new_appointment "APT0001" appointment) "CANCELLED";
         new_appointment "APT0002" appointment]
  ∧ db4 = [set_status (new_appointment "APT0001" appointment) (value new_status);
           new_appointment "APT0002" appointment]
  ∧ served db4
  ∧ ¬ double_booked db3
  ∧ double_booked db4.
Proof.
  intros Hc Hlive body db1 db2 db3 db4.
  pose proof (validate_body_of today appointment Hc) as Hv.
  assert (H1 : db1 = [new_appointment "APT0001" appointment]).
  { unfold db1, body. by rewrite (create_new_appointment_inr _ _ _ _ Hv). }
  assert (H2 : db2 = [set_status (new_appointment "APT0001" appointment)
                        "CANCELLED"]).
  { unfold db2, update_status_request. rewrite H1.
    change (validate_status_update (Some "CANCELLED")) with (Some CANCELLED).
    cbv beta iota. by rewrite update_status_store. }
  assert (H3 : db3 = [set_status (new_appointment "APT0001" appointment)
                        "CANCELLED";
                      new_appointment "APT0002" appointment]).
  { unfold db3, body. rewrite (create_new_appointment_inr _ _ _ _ Hv), H2.
    rewrite (create_appointment_room
               [set_status (new_appointment "APT0001" appointment) "CANCELLED"]
               appointment); [done|done|done|].
    intros (a & ->%list_elem_of_singleton & (_ & _ & Hst & _)). by apply Hst. }
  assert (H4 : db4 = [set_status (new_appointment "APT0001" appointment)
                        (value new_status);
                      new_appointment "APT0002" appointment]).
  { pose proof (update_appointment_status_unique
                  [set_status (new_appointment "APT0001" appointment) "CANCELLED";
                   new_appointment "APT0002" appointment] 0
                  (set_status (new_appointment "APT0001" appointment) "CANCELLED")
                  new_status eq_refl) as Hu.
    unfold db4, update_status_request, validate_status_update.
    rewrite H3.
    replace (Some (value new_status) ≫= AppointmentStatus_of_value)
      with (Some new_status) by by destruct new_status.
    cbv beta iota. rewrite update_status_store.
    change (Models.appointment_id
              (set_status (new_appointment "APT0001" appointment) "CANCELLED"))
      with "APT0001" in Hu.
    rewrite Hu; [done|].
    apply (bool_decide_unpack _). vm_compute. exact I. }
  destruct Hc as (_ & _ & _ & Hgt & _). rewrite time_gt_lt in Hgt.
  split_and!.
  - exact H3.
  - exact H4.
  - exact (served_put _ _ _ _ (served_post _ _ _
             (served_put _ _ _ _ (served_post _ _ _ served_empty)))).
  - rewrite H3. intros (i & j & a & b & Hij & Hi & Hj & Hov).
    destruct i as [|[|i]], j as [|[|j]]; try done;
      simplify_eq/=; destruct Hov as (_ & _ & Hsa & Hsb & _); done.
  - rewrite H4. exists 0%nat, 1%nat. do 2 eexists. split_and!; try done.
    unfold rows_overlap. simpl. split_and!; try done.
    by destruct new_status.
Qed.

Lemma revived_row_double_books_witness :
  request_constraints monday (request_for "DOC0001" monday (hm 9 0) (hm 10 0))
  ∧ double_booked
      [booking "APT0001" "DOC0001" monday (hm 9 0) (hm 10 0) "COMPLETED";
       booking "APT0002" "DOC0001" monday (hm 9 0) (hm 10 0) "SCHEDULED"].
Proof.
  assert (Hc : request_constraints monday
                 (request_for "DOC0001" monday (hm 9 0) (hm 10 0))).
  { unfold request_constraints. simpl. split_and!; (done || lia). }
  split; [exact Hc|].
  destruct (revived_row_double_books monday
              (request_for "DOC0001" monday (hm 9 0) (hm 10 0)) COMPLETED Hc)
    as (_ & H4 & _ & _ & Hdouble); [done|].
  rewrite H4 in Hdouble. exact Hdouble.
Defined.

(** ** A creation seen through the reading operations *)

Section AfterCreation.

Lemma free_slot_snoc (db : Store) a doctor_id date s :
  free_slot (db ++ [a]) doctor_id date s
  ↔ free_slot db doctor_id date s
    ∧ (booked_for doctor_id date a →
       ¬ within (start_time s) (Models.appointment_start_time a)
                (Models.appointment_end_time a)).
Proof. unfold free_slot. by rewrite Forall_app, Forall_singleton. Qed.

Lemma booked_for_new id appointment doctor_id date :
  booked_for doctor_id date (new_appointment id appointment)
  ↔ Schemas.doctor_id appointment = doctor_id
    ∧ Schemas.appointment_date appointment = date.
Proof. unfold booked_for. simpl. intuition congruence. Qed.

Lemma filter_snoc {A} (P : A → Prop) `{∀ x, Decision (P x)} (l : list A) x :
  filter P (l ++ [x]) = filter P l ++ (if decide (P x) then [x] else []).
Proof.
  rewrite filter_app. f_equal.
Qed.

Lemma count_by_owner (P : Appointment → Prop) `{∀ a, Decision (P a)}
    (db : Store) :
  Forall valid_status db →
  (length (filter (λ a, P a ∧ status a = value SCHEDULED) db)
   + length (filter (λ a, P a ∧ status a = value COMPLETED) db)
   + length (filter (λ a, P a ∧ status a = value CANCELLED) db)
   + length (filter (λ a, P a ∧ status a = value PENDING) db))%nat
  = length (filter P db).
Proof.
  induction 1 as [|a db [st Hst] _ IH]; [done|].
  rewrite !filter_cons. rewrite Hst.
  destruct (decide (P a)) as [HP|HP].
  - destruct st; cbn [value] in *; repeat case_decide;
      try (exfalso; intuition congruence); simpl; lia.
  - repeat case_decide; try (exfalso; intuition congruence). exact IH.
Qed.

Lemma count_by_owner_le (P Q : Appointment → Prop) `{∀ a, Decision (P a)}
    `{∀ a, Decision (Q a)} (db : Store) :
  (length (filter (λ a, P a ∧ Q a) db) ≤ length (filter Q db))%nat.
Proof.
  induction db as [|a db IH]; [done|].
  rewrite !filter_cons.
  repeat case_decide; try (exfalso; intuition congruence); simpl; lia.
Qed.

End AfterCreation.

(** X18.  A booking takes its slots and no others: after a successful
    creation no slot whose start lies in the booked interval is offered for
    the doctor on the date, every other slot offered before is still
    offered, and the slots of every other doctor and of every other date
    are as before. *)
Theorem booked_slot_is_taken (db db' : Store) (appointment : AppointmentRequest)
    (row : Appointment) :
  create_appointment db appointment = (db', Return row) →
  (∀ s, within (start_time s) (Schemas.appointment_start_time appointment)
               (Schemas.appointment_end_time appointment) →
        s ∉ get_available_time_slots db' (Schemas.doctor_id appointment)
              (Schemas.appointment_date appointment))
  ∧ (∀ s, s ∈ get_available_time_slots db (Schemas.doctor_id appointment)
                (Schemas.appointment_date appointment) →
          ¬ within (start_time s) (Schemas.appointment_start_time appointment)
                   (Schemas.appointment_end_time appointment) →
          s ∈ get_available_time_slots db' (Schemas.doctor_id appointment)
                (Schemas.appointment_date appointment))
  ∧ (∀ doctor_id date,
       doctor_id ≠ Schemas.doctor_id appointment
       ∨ date ≠ Schemas.appointment_date appointment →
       get_available_time_slots db' doctor_id date
       = get_available_time_slots db doctor_id date).
Proof.
  intros (-> & _ & n & _ & ->)%create_appointment_Return. split_and!.
  - intros s Hin.
    rewrite available_eq_filter, list_elem_of_filter, free_slot_snoc.
    intros [[_ Hfree] _]. apply Hfree; [by apply booked_for_new|done].
  - intros s. rewrite !available_eq_filter, !list_elem_of_filter, free_slot_snoc.
    intros [Hfree Hs] Hout. by split_and!.
  - intros doctor_id date Hother. rewrite !available_eq_filter.
    apply list_filter_iff. intros s. rewrite free_slot_snoc.
    split; [by intros [? _]|]. intros Hfree. split; [done|].
    intros [??]%booked_for_new. destruct Hother; congruence.
Qed.

Lemma booked_slot_is_taken_witness :
  create_appointment [] (request_for "DOC0001" monday (hm 9 0) (hm 10 0))
  = ([booking "APT0001" "DOC0001" monday (hm 9 0) (hm 10 0) "SCHEDULED"],
     Return (booking "APT0001" "DOC0001" monday (hm 9 0) (hm 10 0) "SCHEDULED"))
  ∧ get_available_time_slots
      [booking "APT0001" "DOC0001" monday (hm 9 0) (hm 10 0) "SCHEDULED"]
      "DOC0002" monday
    = get_available_time_slots [] "DOC0002" monday.
Proof.
  split; [reflexivity|].
  destruct (booked_slot_is_taken []
              [booking "APT0001" "DOC0001" monday (hm 9 0) (hm 10 0) "SCHEDULED"]
              (request_for "DOC0001" monday (hm 9 0) (hm 10 0))
              (booking "APT0001" "DOC0001" monday (hm 9 0) (hm 10 0) "SCHEDULED")
              eq_refl) as (_ & _ & Hother).
  apply Hother. left. discriminate.
Defined.

(** X19.  In a table whose statuses are all members of the enumeration, the
    four counts of a doctor by status add up to the length of the doctor's
    listing, and likewise for a patient; and a count for a doctor or a
    patient never exceeds the count of the whole table for that status. *)
Theorem counts_by_owner_partition (db : Store) (id : string) :
  Forall valid_status db →
  get_appointments_by_doctor_id db id
  = Return (filter (λ a, Models.doctor_id a = id) db)
  ∧ (get_appointment_count_by_doctor_and_status db id SCHEDULED
     + get_appointment_count_by_doctor_and_status db id COMPLETED
     + get_appointment_count_by_doctor_and_status db id CANCELLED
     + get_appointment_count_by_doctor_and_status db id PENDING)%nat
    = length (filter (λ a, Models.doctor_id a = id) db)
  ∧ get_appointments_by_patient_id db id
    = Return (filter (λ a, Models.patient_id a = id) db)
  ∧ (get_appointment_count_by_patient_and_status db id SCHEDULED
     + get_appointment_count_by_patient_and_status db id COMPLETED
     + get_appointment_count_by_patient_and_status db id CANCELLED
     + get_appointment_count_by_patient_and_status db id PENDING)%nat
    = length (filter (λ a, Models.patient_id a = id) db)
  ∧ (∀ st, (get_appointment_count_by_doctor_and_status db id st
            ≤ get_appointments_count_by_status db st)%nat
           ∧ (get_appointment_count_by_patient_and_status db id st
              ≤ get_appointments_count_by_status db st)%nat).
Proof.
  intros Hvalid. split_and!.
  - done.
  - by apply (count_by_owner (λ a, Models.doctor_id a = id)).
  - done.
  - by apply (count_by_owner (λ a, Models.patient_id a = id)).
  - intros st. split.
    + apply (count_by_owner_le (λ a, Models.doctor_id a = id)
               (λ a, status a = value st)).
    + apply (count_by_owner_le (λ a, Models.patient_id a = id)
               (λ a, status a = value st)).
Qed.

Lemma counts_by_owner_partition_witness :
  Forall valid_status
    [booking "APT0001" "DOC0001" monday (hm 9 0) (hm 10 0) "SCHEDULED"]
  ∧ (get_appointment_count_by_doctor_and_status
       [booking "APT0001" "DOC0001" monday (hm 9 0) (hm 10 0) "SCHEDULED"]
       "DOC0001" SCHEDULED
     + get_appointment_count_by_doctor_and_status
         [booking "APT0001" "DOC0001" monday (hm 9 0) (hm 10 0) "SCHEDULED"]
         "DOC0001" COMPLETED
     + get_appointment_count_by_doctor_and_status
         [booking "APT0001" "DOC0001" monday (hm 9 0) (hm 10 0) "SCHEDULED"]
         "DOC0001" CANCELLED
     + get_appointment_count_by_doctor_and_status
         [booking "APT0001" "DOC0001" monday (hm 9 0) (hm 10 0) "SCHEDULED"]
         "DOC0001" PENDING)%nat
    = length (filter (λ a, Models.doctor_id a = "DOC0001")
                [booking "APT0001" "DOC0001" monday (hm 9 0) (hm 10 0) "SCHEDULED"]).
Proof.
  assert (Hvalid : Forall valid_status
            [booking "APT0001" "DOC0001" monday (hm 9 0) (hm 10 0) "SCHEDULED"])
    by (apply Forall_singleton; by exists SCHEDULED).
  split; [exact Hvalid|].
  destruct (counts_by_owner_partition _ "DOC0001" Hvalid) as (_ & Hsum & _).
  exact Hsum.
Defined.

(** X20.  A successful creation shows in the reading operations as one more
    row and nothing else: the new row comes last in the list of all
    appointments and in the listings of its own doctor, patient and
    facility, every other listing is as before, the count of SCHEDULED
    grows by one and the counts of the other statuses stay. *)
Theorem creation_extends_listings (db db' : Store)
    (appointment : AppointmentRequest) (row : Appointment) :
  create_appointment db appointment = (db', Return row) →
  get_all_appointments db' = Return (db ++ [row])
  ∧ (∀ id l, get_appointments_by_doctor_id db id = Return l →
             get_appointments_by_doctor_id db' id
             = Return (l ++ if decide (Schemas.doctor_id appointment = id)
                            then [row] else []))
  ∧ (∀ id l, get_appointments_by_patient_id db id = Return l →
             get_appointments_by_patient_id db' id
             = Return (l ++ if decide (Schemas.patient_id appointment = id)
                            then [row] else []))
  ∧ (∀ id, get_facility_appointments db' id
           = get_facility_appointments db id
             ++ if decide (Schemas.facility_id appointment = id)
                then [row] else [])
  ∧ (∀ st, get_appointments_count_by_status db' st
           = if decide (st = SCHEDULED)
             then S (get_appointments_count_by_status db st)
             else get_appointments_count_by_status db st).
Proof.
  intros (-> & _ & n & _ & ->)%create_appointment_Return. split_and!.
  - done.
  - intros id l [= <-]. unfold get_appointments_by_doctor_id.
    by rewrite filter_snoc.
  - intros id l [= <-]. unfold get_appointments_by_patient_id.
    by rewrite filter_snoc.
  - intros id. unfold get_facility_appointments, get_appointments_by_facility_id.
    by rewrite filter_snoc.
  - intros st. unfold get_appointments_count_by_status.
    rewrite filter_snoc, length_app. simpl.
    destruct st; simpl; lia.
Qed.

Lemma creation_extends_listings_witness :
  create_appointment [] (request_for "DOC0001" monday (hm 9 0) (hm 10 0))
  = ([booking "APT0001" "DOC0001" monday (hm 9 0) (hm 10 0) "SCHEDULED"],
     Return (booking "APT0001" "DOC0001" monday (hm 9 0) (hm 10 0) "SCHEDULED"))
  ∧ get_facility_appointments
      [booking "APT0001" "DOC0001" monday (hm 9 0) (hm 10 0) "SCHEDULED"]
      "FAC0001"
    = [booking "APT0001" "DOC0001" monday (hm 9 0) (hm 10 0) "SCHEDULED"].
Proof.
  split; [reflexivity|].
  destruct (creation_extends_listings []
              [booking "APT0001" "DOC0001" monday (hm 9 0) (hm 10 0) "SCHEDULED"]
              (request_for "DOC0001" monday (hm 9 0) (hm 10 0))
              (booking "APT0001" "DOC0001" monday (hm 9 0) (hm 10 0) "SCHEDULED")
              eq_refl) as (_ & _ & _ & Hfac & _).
  exact (Hfac "FAC0001").
Defined.

(** ** A status update seen through the counts *)

Section AfterUpdate.

Lemma filter_length_insert {A} (P : A → Prop) `{∀ x, Decision (P x)}
    (l : list A) i x y :
  l !! i = Some x →
  (length (filter P (<[i:=y]> l)) + (if decide (P x) then 1 else 0))%nat
  = (length (filter P l) + (if decide (P y) then 1 else 0))%nat.
Proof.
  revert i. induction l as [|z l IH]; intros [|i] Hi; try done.
  - injection Hi as ->. simpl. rewrite !filter_cons.
    destruct (decide (P x)), (decide (P y)); simpl; lia.
  - simpl in *. rewrite !filter_cons. specialize (IH i Hi).
    destruct (decide (P z)); simpl; lia.
Qed.

End AfterUpdate.

(** X21.  A successful status update moves exactly one row between the
    counts: the count of the new status gains what the count of the old
    status loses, the count of every other status and the number of rows
    stay; an update that raises changes no count. *)
Theorem update_moves_one_count (db : Store) (appointment_id : string)
    (new_status : AppointmentStatus) :
  (∀ db' row,
     update_appointment_status db appointment_id new_status = (db', Return row) →
     ∃ i a, get_appointment_by_id db appointment_id = Done (i, a)
       ∧ length db' = length db
       ∧ ∀ st,
           (get_appointments_count_by_status db' st
            + (if decide (status a = value st) then 1 else 0))%nat
           = (get_appointments_count_by_status db st
              + (if decide (new_status = st) then 1 else 0))%nat)
  ∧ (∀ db' e,
       update_appointment_status db appointment_id new_status = (db', Raise e) →
       ∀ st, get_appointments_count_by_status db' st
             = get_appointments_count_by_status db st).
Proof.
  split.
  - intros db' row Hu.
    destruct (update_appointment_status_Return _ _ _ _ _ Hu)
      as (i & a & Hg & -> & ->).
    exists i, a. split; [done|]. split; [apply length_insert|].
    intros st. unfold get_appointments_count_by_status.
    apply get_appointment_by_id_Done, list_find_Some in Hg as (Hi & _ & _).
    pose proof (filter_length_insert (λ b, status b = value st) db i a
                  (set_status a (value new_status)) Hi) as Hcount.
    cbv beta in Hcount. etrans; [exact Hcount|]. f_equal.
    simpl. by destruct new_status, st.
  - intros db' e Hu st.
    by rewrite (update_appointment_status_Raise _ _ _ _ _ Hu).
Qed.
